(** * yahoojp_byline: a shallow embedding of the extraction, merge and
      rendering pipeline, and the properties of its specification.

    Conventions of the embedding.

    - A Python [str] is a Rocq [string] holding its UTF-8 encoding.  The
      order of two [str] values (by code point) is the byte-wise order of
      their encodings, and the regular expressions of the source only name
      ASCII characters, the literal text of the author pattern and [.]
      (any character but a line feed), so matching on the encoding finds
      the same matches.
    - [Optional[T]] is [option T]; code that can raise returns [result T].
    - The wall clock ([datetime.now(TZ_TOKYO)]) is an explicit argument. *)

From Stdlib Require Import String Ascii List ZArith Bool Lia Arith.
From Stdlib Require Import Permutation Sorted.
Import ListNotations.
Open Scope list_scope.
Open Scope string_scope.

(** ** Exceptions *)

Inductive exn : Type :=
| TypeError
| ValueError
| KeyError
| IndexError
| OverflowError
| OSError
| UnserializableContentError.

Inductive result (A : Type) : Type :=
| Ok (a : A)
| Raise (e : exn).
Arguments Ok {A} a.
Arguments Raise {A} e.

Definition bind {A B : Type} (m : result A) (k : A -> result B) : result B :=
  match m with
  | Ok a => k a
  | Raise e => Raise e
  end.

Notation "x <- m ;; k" := (bind m (fun x => k))
  (at level 61, m at next level, right associativity).

Definition raises {A : Type} (m : result A) : Prop :=
  exists e, m = Raise e.

(** [[f(x) for x in l]] with an [f] that can raise: the first exception
    aborts the comprehension. *)
Fixpoint mapM {A B : Type} (f : A -> result B) (l : list A) : result (list B) :=
  match l with
  | [] => Ok []
  | x :: l' => y <- f x ;; ys <- mapM f l' ;; Ok (y :: ys)
  end.

(** Truth value of an optional string: [None] and [''] are false. *)
Definition truthy (o : option string) : bool :=
  match o with
  | None => false
  | Some s => negb (String.eqb s "")
  end.

(** ** Calendar values *)

Module Datetime.

Inductive tzinfo : Type := TZ_TOKYO.

Record datetime : Type := mk {
  year : Z; month : Z; day : Z; hour : Z; minute : Z; tz : tzinfo
}.

Definition is_leap (y : Z) : bool :=
  ((y mod 4 =? 0) && negb (y mod 100 =? 0) || (y mod 400 =? 0))%Z.

Definition days_in_month (y m : Z) : Z :=
  (if m =? 2 then (if is_leap y then 29 else 28)
   else if (m =? 4) || (m =? 6) || (m =? 9) || (m =? 11) then 30
   else 31)%Z.

(** An integer that fits the C [int] the constructor converts its
    arguments to. *)
Definition c_int (z : Z) : bool :=
  ((-2147483648 <=? z) && (z <=? 2147483647))%Z.

(** The checks of the [datetime] constructor: [OverflowError] when an
    argument does not fit a C [int], then [ValueError] outside 1..9999,
    1..12, 1..days in month, 0..23, 0..59. *)
Definition new (y mo d h mi : Z) (t : tzinfo) : result datetime :=
  (if negb (c_int y && c_int mo && c_int d && c_int h && c_int mi)
   then Raise OverflowError
   else if negb ((1 <=? y) && (y <=? 9999)) then Raise ValueError
   else if negb ((1 <=? mo) && (mo <=? 12)) then Raise ValueError
   else if negb ((1 <=? d) && (d <=? days_in_month y mo)) then Raise ValueError
   else if negb ((0 <=? h) && (h <=? 23)) then Raise ValueError
   else if negb ((0 <=? mi) && (mi <=? 59)) then Raise ValueError
   else Ok (mk y mo d h mi t))%Z.

(** Offset from UTC in seconds.  Asia/Tokyo has been at +09:00 with no
    daylight saving since 1952; earlier years (summer time of 1948-1951,
    local mean time before 1888) are not modelled. *)
Definition utcoffset (d : datetime) : option Z :=
  match tz d with
  | TZ_TOKYO => if (1952 <=? year d)%Z then Some 32400%Z else None
  end.

(** Two aware values with the same [tzinfo] compare by their fields. *)
Definition fields (d : datetime) : list Z :=
  [year d; month d; day d; hour d; minute d].

Fixpoint lex_ltb (a b : list Z) : bool :=
  match a, b with
  | x :: a', y :: b' => (x <? y)%Z || ((x =? y)%Z && lex_ltb a' b')
  | [], _ :: _ => true
  | _, [] => false
  end.

Fixpoint lex_eqb (a b : list Z) : bool :=
  match a, b with
  | x :: a', y :: b' => (x =? y)%Z && lex_eqb a' b'
  | [], [] => true
  | _, _ => false
  end.

Definition ltb (a b : datetime) : bool := lex_ltb (fields a) (fields b).
Definition eqb (a b : datetime) : bool := lex_eqb (fields a) (fields b).

End Datetime.

Abbreviation datetime := Datetime.datetime.
Abbreviation TZ_TOKYO := Datetime.TZ_TOKYO.

(** ** Regular expressions (module [re])

    A backtracking matcher with the priorities of Python's: alternatives
    left to right, greedy quantifiers longest first, lazy ones shortest
    first.  Only the constructs of the patterns in the source appear. *)

Module Re.

Inductive regex : Type :=
| Eps
| Class (p : ascii -> bool)          (* one character of a set *)
| Seq (r1 r2 : regex)
| Alt (r1 r2 : regex)                (* r1|r2 *)
| Opt (r : regex)                    (* r?   greedy *)
| LazyStar (p : ascii -> bool)       (* c*?  *)
| GreedyPlus (p : ascii -> bool)     (* c+   *)
| Group (i : nat) (r : regex).       (* the i-th capturing group *)

(** Captured groups, numbered from 1; [None] for a group that did not
    take part in the match. *)
Definition groups : Type := list (nat * string).

Fixpoint group (g : groups) (i : nat) : option string :=
  match g with
  | [] => None
  | (j, s) :: g' => if Nat.eqb i j then Some s else group g' i
  end.

(** The text consumed between [s] and its suffix [s']. *)
Definition consumed (s s' : string) : string :=
  substring 0 (String.length s - String.length s') s.

Section Matcher.
Context {A : Type}.

Fixpoint lazy_star (p : ascii -> bool) (s : string) (g : groups)
    (k : string -> groups -> option A) : option A :=
  match k s g with
  | Some x => Some x
  | None =>
      match s with
      | String c s' => if p c then lazy_star p s' g k else None
      | EmptyString => None
      end
  end.

(** Zero or more, longest first. *)
Fixpoint greedy_star (p : ascii -> bool) (s : string) (g : groups)
    (k : string -> groups -> option A) : option A :=
  match s with
  | String c s' =>
      if p c then
        match greedy_star p s' g k with
        | Some x => Some x
        | None => k s g
        end
      else k s g
  | EmptyString => k s g
  end.

Fixpoint run (r : regex) (s : string) (g : groups)
    (k : string -> groups -> option A) : option A :=
  match r with
  | Eps => k s g
  | Class p =>
      match s with
      | String c s' => if p c then k s' g else None
      | EmptyString => None
      end
  | Seq r1 r2 => run r1 s g (fun s' g' => run r2 s' g' k)
  | Alt r1 r2 =>
      match run r1 s g k with
      | Some x => Some x
      | None => run r2 s g k
      end
  | Opt r1 =>
      match run r1 s g k with
      | Some x => Some x
      | None => k s g
      end
  | LazyStar p => lazy_star p s g k
  | GreedyPlus p =>
      match s with
      | String c s' => if p c then greedy_star p s' g k else None
      | EmptyString => None
      end
  | Group i r1 =>
      run r1 s g (fun s' g' => k s' ((i, consumed s s') :: g'))
  end.
End Matcher.

(** [re.match]: a match at the start of the text. *)
Definition rmatch (r : regex) (s : string) : option groups :=
  run r s [] (fun _ g => Some g).

(** [re.search]: the match at the leftmost position that has one. *)
Fixpoint search (r : regex) (s : string) : option groups :=
  match rmatch r s with
  | Some g => Some g
  | None =>
      match s with
      | String _ s' => search r s'
      | EmptyString => None
      end
  end.

(** Character sets. *)
Definition range (lo hi : ascii) (c : ascii) : bool :=
  Nat.leb (nat_of_ascii lo) (nat_of_ascii c)
  && Nat.leb (nat_of_ascii c) (nat_of_ascii hi).
Definition one_of (l : list ascii) (c : ascii) : bool :=
  existsb (Ascii.eqb c) l.
Definition digit : ascii -> bool := range "0"%char "9"%char.
(** [.] without DOTALL *)
Definition dot (c : ascii) : bool := negb (Ascii.eqb c "010"%char).

Definition lit (c : ascii) : regex := Class (Ascii.eqb c).

Fixpoint str (s : string) : regex :=
  match s with
  | EmptyString => Eps
  | String c s' => Seq (lit c) (str s')
  end.

(** *** The texts of a pattern

    What a pattern matches, without the priorities of the search. *)

Fixpoint all_chars (p : ascii -> bool) (s : string) : bool :=
  match s with
  | EmptyString => true
  | String c s' => p c && all_chars p s'
  end.

Fixpoint lang (r : regex) (s : string) : Prop :=
  match r with
  | Eps => s = ""
  | Class p => exists c, s = String c "" /\ p c = true
  | Seq r1 r2 => exists s1 s2, s = s1 ++ s2 /\ lang r1 s1 /\ lang r2 s2
  | Alt r1 r2 => lang r1 s \/ lang r2 s
  | Opt r1 => s = "" \/ lang r1 s
  | LazyStar p => all_chars p s = true
  | GreedyPlus p => s <> "" /\ all_chars p s = true
  | Group _ r1 => lang r1 s
  end.

(** [captures r s g g']: [s] is a text of [r], and matching it turns
    the groups [g] into [g']. *)
Fixpoint captures (r : regex) (s : string) (g g' : groups) : Prop :=
  match r with
  | Eps => s = "" /\ g' = g
  | Class p => (exists c, s = String c "" /\ p c = true) /\ g' = g
  | Seq r1 r2 =>
      exists s1 s2 gm,
        s = s1 ++ s2 /\ captures r1 s1 g gm /\ captures r2 s2 gm g'
  | Alt r1 r2 => captures r1 s g g' \/ captures r2 s g g'
  | Opt r1 => (s = "" /\ g' = g) \/ captures r1 s g g'
  | LazyStar p => all_chars p s = true /\ g' = g
  | GreedyPlus p => (s <> "" /\ all_chars p s = true) /\ g' = g
  | Group i r1 => exists gm, captures r1 s g gm /\ g' = (i, s) :: gm
  end.


End Re.

(** ** parse.py: the publication date *)

(** [int(x)] on a string of ASCII decimal digits; anything else is a
    [ValueError] (signs, blanks and underscores cannot reach it: the
    groups of the pattern below hold digits only). *)
Fixpoint int_digits (acc : Z) (s : string) : result Z :=
  match s with
  | EmptyString => Ok acc
  | String c s' =>
      if Re.digit c
      then int_digits (10 * acc + Z.of_nat (nat_of_ascii c - 48))%Z s'
      else Raise ValueError
  end.

Definition int (x : option string) : result Z :=
  match x with
  | None => Raise TypeError
  | Some EmptyString => Raise ValueError
  | Some s => int_digits 0%Z s
  end.

Definition safe_int (x : option string) : result (option Z) :=
  if truthy x then (n <- int x ;; Ok (Some n)) else Ok None.

(** [not x] for an optional integer: true on [None] and on 0. *)
Definition not_int (x : option Z) : bool :=
  match x with
  | None => true
  | Some n => (n =? 0)%Z
  end.

(** [(?:([0-9]{4})/)?([1-9]|1[012])/([123]?[0-9])] *)
Definition date_regexp : Re.regex :=
  let d := Re.Class Re.digit in
  Re.Seq (Re.Opt (Re.Seq (Re.Group 1 (Re.Seq d (Re.Seq d (Re.Seq d d))))
                         (Re.lit "/")))
 (Re.Seq (Re.Group 2 (Re.Alt (Re.Class (Re.range "1" "9"))
                             (Re.Seq (Re.lit "1")
                                     (Re.Class (Re.one_of ["0"; "1"; "2"]%char)))))
 (Re.Seq (Re.lit "/")
         (Re.Group 3 (Re.Seq (Re.Opt (Re.Class (Re.one_of ["1"; "2"; "3"]%char)))
                             d)))).

(** [([0-9]{1,2}):([0-9]{1,2})] *)
Definition time_regexp : Re.regex :=
  let d := Re.Class Re.digit in
  Re.Seq (Re.Group 4 (Re.Seq d (Re.Opt d)))
 (Re.Seq (Re.lit ":")
         (Re.Group 5 (Re.Seq d (Re.Opt d)))).

(** [date_regexp + '.*?' + time_regexp] *)
Definition pubdate_regexp : Re.regex :=
  Re.Seq date_regexp (Re.Seq (Re.LazyStar Re.dot) time_regexp).


(** [now] is [datetime.now(TZ_TOKYO)] at the time of the call. *)
Definition parse_pubdate (now : datetime) (date_str : string)
    (this_year : option Z) : result (option datetime) :=
  match Re.search pubdate_regexp date_str with
  | Some m =>
      year <- safe_int (Re.group m 1) ;;
      month <- int (Re.group m 2) ;;
      day <- int (Re.group m 3) ;;
      hour <- int (Re.group m 4) ;;
      minute <- int (Re.group m 5) ;;
      let year :=
        if not_int year then
          match this_year with
          | None => Datetime.year now
          | Some y => y
          end
        else
          match year with Some y => y | None => 0%Z end in
      dt <- Datetime.new year month day hour minute TZ_TOKYO ;;
      Ok (Some dt)
  | None => Ok None
  end.


(** ** White space

    The white space of Python ([str.isspace], [\s] of a pattern on
    [str]) in its UTF-8 bytes.  One byte: U+0009 to U+000D and U+001C
    to U+0020.  Two bytes: U+0085 and U+00A0.  Three bytes: U+1680,
    U+2000 to U+200A, U+2028, U+2029, U+202F, U+205F and U+3000. *)

Definition byte (n : nat) (c : ascii) : bool := Nat.eqb (nat_of_ascii c) n.

Definition between (lo hi : nat) (c : ascii) : bool :=
  Nat.leb lo (nat_of_ascii c) && Nat.leb (nat_of_ascii c) hi.

Definition space2 (c d : ascii) : bool :=
  byte 194 c && (byte 133 d || byte 160 d).

Definition space3 (c d e : ascii) : bool :=
  byte 225 c && byte 154 d && byte 128 e
  || byte 226 c && byte 128 d
     && (between 128 138 e || between 168 169 e || byte 175 e)
  || byte 226 c && byte 129 d && byte 159 e
  || byte 227 c && byte 128 d && byte 128 e.

(** ** The document tree (bs4)

    [BeautifulSoup(html, 'html5lib')] is the library's parser; the model
    starts from the tree it builds.  Attribute values are kept as written
    in the markup; bs4 splits the values of [class] and [rel] on white
    space, which [tokens] does where they are looked at. *)

Module Bs4.

#[local] Set Warnings "-register-all".

Inductive node : Type :=
| NavigableString (s : string)
| Tag (name : string) (attrs : list (string * string)) (contents : list node).

(** Name and attributes of an element. *)
Definition head : Type := (string * list (string * string))%type.

(** An element together with its ancestors, nearest first: what a
    [Tag] object of the library gives access to through [.parent]. *)
Record element : Type := mkElement {
  parents : list head;
  name : string;
  attrs : list (string * string);
  contents : list node
}.

Definition head_of (e : element) : head := (name e, attrs e).

(** The [BeautifulSoup] object: the root of the tree. *)
Definition soup (doc : list node) : element :=
  mkElement [] "[document]" [] doc.

Fixpoint lookup (k : string) (d : list (string * string)) : option string :=
  match d with
  | [] => None
  | (k', v) :: d' => if String.eqb k k' then Some v else lookup k d'
  end.

(** [tag[key]] *)
Definition getitem (e : element) (key : string) : result string :=
  match lookup key (attrs e) with
  | Some v => Ok v
  | None => Raise KeyError
  end.

(** [tag.descendants], elements only, in document order. *)
Fixpoint descendants_node (ps : list head) (n : node) : list element :=
  match n with
  | NavigableString _ => []
  | Tag nm at_ cs =>
      mkElement ps nm at_ cs
      :: flat_map (descendants_node ((nm, at_) :: ps)) cs
  end.

Definition descendants (e : element) : list element :=
  flat_map (descendants_node (head_of e :: parents e)) (contents e).

(** [tag.strings]: the text nodes below, in document order. *)
Fixpoint strings_node (n : node) : list string :=
  match n with
  | NavigableString s => [s]
  | Tag _ _ cs => flat_map strings_node cs
  end.

Definition strings (e : element) : list string :=
  flat_map strings_node (contents e).

(** [''.join(l)] *)
Definition join_empty (l : list string) : string :=
  fold_right String.append "" l.

(** [tag.string]: the text of the only child, looking through a chain
    of only children; [None] when some element on the way has no child
    or several. *)
Fixpoint node_string (n : node) : option string :=
  match n with
  | NavigableString s => Some s
  | Tag _ _ [c] => node_string c
  | Tag _ _ _ => None
  end.

Definition string_ (e : element) : option string :=
  match contents e with
  | [c] => node_string c
  | _ => None
  end.

(** The white space characters of one byte. *)
Definition is_space (c : ascii) : bool :=
  let n := nat_of_ascii c in
  Nat.leb 9 n && Nat.leb n 13 || Nat.leb 28 n && Nat.leb n 32.

(** The maximal runs of characters that are not white space, of one
    byte or more. *)
Fixpoint tokens_aux (cur : string) (s : string) : list string :=
  let flush := match cur with EmptyString => [] | _ => [cur] end in
  match s with
  | EmptyString => flush
  | String c r1 =>
      if is_space c then (flush ++ tokens_aux "" r1)%list
      else
        match r1 with
        | String d r2 =>
            if space2 c d then (flush ++ tokens_aux "" r2)%list
            else
              match r2 with
              | String e r3 =>
                  if space3 c d e then (flush ++ tokens_aux "" r3)%list
                  else tokens_aux (cur ++ String c "") r1
              | EmptyString => tokens_aux (cur ++ String c "") r1
              end
        | EmptyString => tokens_aux (cur ++ String c "") r1
        end
  end.

Definition tokens (s : string) : list string := tokens_aux "" s.

Definition classes (h : head) : list string :=
  match lookup "class" (snd h) with
  | Some v => tokens v
  | None => []
  end.

Definition has_class (c : string) (h : head) : bool :=
  existsb (String.eqb c) (classes h).

(** ** Selectors *)

(** A compound selector [tag.class[attr="value"]], each part optional. *)
Record compound : Type := mkCompound {
  sel_tag : option string;
  sel_class : option string;
  sel_attr : option (string * string)
}.

(** Compound selectors joined by the descendant combinator, the
    subject last. *)
Definition selector : Type := list compound.

(** Attributes whose value the library holds as a list of tokens. *)
Definition cdata_list_attribute (tag key : string) : bool :=
  existsb (String.eqb key) ["class"; "accesskey"; "dropzone"]
  || (existsb (String.eqb tag) ["a"; "link"]
      && existsb (String.eqb key) ["rel"; "rev"]).

Fixpoint join_space (l : list string) : string :=
  match l with
  | [] => ""
  | [x] => x
  | x :: l' => (x ++ " " ++ join_space l')%string
  end.

(** [[attr="value"]]: the value, or for a list-valued attribute its
    tokens joined by one blank, is matched against [^value$], which
    also accepts one final line feed. *)
Definition attr_is (key value : string) (h : head) : bool :=
  match lookup key (snd h) with
  | None => false
  | Some v =>
      let v := if cdata_list_attribute (fst h) key
               then join_space (tokens v) else v in
      String.eqb v value || String.eqb v (value ++ String "010" "")
  end.

Definition matches_compound (c : compound) (h : head) : bool :=
  match sel_tag c with Some t => String.eqb t (fst h) | None => true end
  && match sel_class c with Some k => has_class k h | None => true end
  && match sel_attr c with Some (k, v) => attr_is k v h | None => true end.

(** [cs], innermost first, is matched by some chain of ancestors. *)
Fixpoint matches_ancestors (cs : list compound) (ps : list head) : bool :=
  match cs with
  | [] => true
  | c :: cs' =>
      (fix climb (ps : list head) : bool :=
         match ps with
         | [] => false
         | p :: ps' =>
             matches_compound c p && matches_ancestors cs' ps' || climb ps'
         end) ps
  end.

Definition matches (sel : selector) (e : element) : bool :=
  match rev sel with
  | [] => false
  | c :: cs => matches_compound c (head_of e) && matches_ancestors cs (parents e)
  end.

(** [tag.select(spec)] *)
Definition select (e : element) (sel : selector) : list element :=
  filter (matches sel) (descendants e).

(** [tag.find(id=value)] *)
Definition find_id (e : element) (value : string) : option element :=
  find (fun x => match lookup "id" (attrs x) with
                 | Some v => String.eqb v value
                 | None => false
                 end) (descendants e).

(** [tag.find_all(name, **{'class': cls})] *)
Definition find_all (e : element) (nm cls : string) : list element :=
  filter (fun x => String.eqb (name x) nm && has_class cls (head_of x))
         (descendants e).

Definition tag_ (t : string) : compound := mkCompound (Some t) None None.
Definition tag_class (t c : string) : compound := mkCompound (Some t) (Some c) None.
Definition tag_attr (t k v : string) : compound :=
  mkCompound (Some t) None (Some (k, v)).

End Bs4.

Abbreviation element := Bs4.element.

(** ** parse.py: entries and page data *)

Module Entry.
Record t : Type := mk {
  url : option string;
  title : option string;
  summary : option string;
  pubdate : option datetime;
  thumbnail : option string
}.
End Entry.
Abbreviation Entry := Entry.t.

Module FeedData.
Record t : Type := mk {
  title : option string;
  url : option string;
  author : option string;
  description : option string;
  entries : list Entry
}.
End FeedData.
Abbreviation FeedData := FeedData.t.

(** [results and results[0] or None]: an element is always true. *)
Definition select1 (elem : element) (spec : Bs4.selector) : option element :=
  match Bs4.select elem spec with
  | [] => None
  | x :: _ => Some x
  end.

(** The selectors of the source. *)
Definition sel_entry_link : Bs4.selector := [Bs4.tag_class "a" "entryBody"].
Definition sel_entry_thumbnail : Bs4.selector :=
  [Bs4.tag_class "dd" "thumb"; Bs4.tag_ "img"].
Definition sel_entry_title : Bs4.selector := [Bs4.tag_class "dt" "ttl"].
Definition sel_entry_summary : Bs4.selector := [Bs4.tag_class "dd" "summary"].
Definition sel_entry_pubdate : Bs4.selector := [Bs4.tag_class "dd" "pubdate"].
Definition sel_title : Bs4.selector := [Bs4.tag_ "title"].
Definition sel_description : Bs4.selector :=
  [Bs4.tag_attr "meta" "name" "description"].
Definition sel_canonical : Bs4.selector :=
  [Bs4.tag_attr "link" "rel" "canonical"].
Definition sel_head_title : Bs4.selector := [Bs4.tag_ "head"; Bs4.tag_ "title"].

(** [x and x[key]] *)
Definition attr_of (x : option element) (key : string) : result (option string) :=
  match x with
  | Some e => v <- Bs4.getitem e key ;; Ok (Some v)
  | None => Ok None
  end.

(** [x and ''.join(x.strings)] *)
Definition text_of (x : option element) : option string :=
  match x with
  | Some e => Some (Bs4.join_empty (Bs4.strings e))
  | None => None
  end.

Definition extract_entry_link (entry_elem : element) : result (option string) :=
  attr_of (select1 entry_elem sel_entry_link) "href".

Definition extract_entry_thumbnail (entry_elem : element) : result (option string) :=
  attr_of (select1 entry_elem sel_entry_thumbnail) "src".

Definition extract_entry_title (entry_elem : element) : option string :=
  text_of (select1 entry_elem sel_entry_title).

Definition extract_entry_summary (entry_elem : element) : option string :=
  text_of (select1 entry_elem sel_entry_summary).

Definition extract_entry_pubdate (now : datetime) (entry_elem : element)
    : result (option datetime) :=
  match select1 entry_elem sel_entry_pubdate with
  | Some elem => parse_pubdate now (Bs4.join_empty (Bs4.strings elem)) None
  | None => Ok None
  end.

Definition parse_entry (now : datetime) (entry_elem : element) : result Entry :=
  url <- extract_entry_link entry_elem ;;
  thumbnail <- extract_entry_thumbnail entry_elem ;;
  let title := extract_entry_title entry_elem in
  let summary := extract_entry_summary entry_elem in
  pubdate <- extract_entry_pubdate now entry_elem ;;
  Ok (Entry.mk url title summary pubdate thumbnail).

Definition entry_elems (list_ : element) : list element :=
  Bs4.find_all list_ "li" "entry".

Definition extract_entries (now : datetime) (soup : element) : result (list Entry) :=
  match Bs4.find_id soup "athr_al" with
  | None => Ok []
  | Some list_ => mapM (parse_entry now) (entry_elems list_)
  end.

Definition extract_title (soup : element) : option string :=
  match select1 soup sel_title with
  | Some title_elem => Bs4.string_ title_elem
  | None => None
  end.

Definition extract_description (soup : element) : result (option string) :=
  attr_of (select1 soup sel_description) "content".

Definition extract_canonical_url (soup : element) : result (option string) :=
  attr_of (select1 soup sel_canonical) "href".

(** ['(.+)の記事一覧'] *)
Definition author_suffix : string := "の記事一覧".
Definition author_regexp : Re.regex :=
  Re.Seq (Re.Group 1 (Re.GreedyPlus Re.dot)) (Re.str author_suffix).

(** [re.match(pattern, x)] with an [x] that may be [None]. *)
Definition re_match (r : Re.regex) (x : option string) : result (option Re.groups) :=
  match x with
  | Some s => Ok (Re.rmatch r s)
  | None => Raise TypeError
  end.

Definition extract_author (soup : element) : result (option string) :=
  match select1 soup sel_head_title with
  | None => Ok None
  | Some title_elem =>
      m <- re_match author_regexp (Bs4.string_ title_elem) ;;
      match m with
      | Some g => Ok (if truthy (Re.group g 1) then Re.group g 1 else None)
      | None => Ok None
      end
  end.

Definition parse (now : datetime) (soup : element) : result FeedData :=
  let title := extract_title soup in
  author <- extract_author soup ;;
  description <- extract_description soup ;;
  canonical_url <- extract_canonical_url soup ;;
  entries <- extract_entries now soup ;;
  Ok (FeedData.mk title canonical_url author description entries).

(** ** feed.py

    The feedgenerator package is not part of the repository.  Its feed
    object is the record of what [make_rss] hands to it, and its
    serializer is a pair of parameters.  [refuses feed] is the
    exception [feed.writeString] raises, if it raises: the library
    refuses a feed for what it holds (its XML generator raises
    [UnserializableContentError] on a control character in a text), so
    the verdict is a function of the feed object.  [document w feed
    encoding] is the text the call returns when it does not raise: any
    function of the feed object, of the encoding and of the [world] it
    runs in (whatever a library may read besides its arguments, the
    clock for one). *)

Module Feedgenerator.

Record item : Type := mkItem {
  item_title : option string;
  item_link : option string;
  item_description : option string;
  item_author_name : string;
  item_pubdate : option datetime
}.

Record Rss201rev2Feed : Type := mkFeed {
  title : string;
  link : option string;
  description : option string;
  language : string;
  author_name : string;
  items : list item
}.

(** [feed.add_item(...)] appends to the items of the feed. *)
Definition add_item (feed : Rss201rev2Feed) (i : item) : Rss201rev2Feed :=
  mkFeed (title feed) (link feed) (description feed) (language feed)
         (author_name feed) (items feed ++ [i])%list.

End Feedgenerator.

Section Feed.

Variable world : Type.
Variable refuses : Feedgenerator.Rss201rev2Feed -> option exn.
Variable document : world -> Feedgenerator.Rss201rev2Feed -> string -> string.

(** [feed.writeString(encoding)] *)
Definition writeString (w : world) (feed : Feedgenerator.Rss201rev2Feed)
    (encoding : string) : result string :=
  match refuses feed with
  | Some e => Raise e
  | None => Ok (document w feed encoding)
  end.

Definition channel_title (author : string) : string :=
  (author ++ " - Yahoo!ニュース個人 (非公式RSS)")%string.

(** The feed object after the calls of the constructor and of
    [add_item]. *)
Definition rss_feed (author : string) (feeddata : FeedData)
    : Feedgenerator.Rss201rev2Feed :=
  let feed :=
    Feedgenerator.mkFeed (channel_title author)
      (FeedData.url feeddata) (FeedData.description feeddata)
      "ja" author [] in
  fold_left
    (fun feed entry =>
       Feedgenerator.add_item feed
         (Feedgenerator.mkItem (Entry.title entry) (Entry.url entry)
            (Entry.summary entry) author (Entry.pubdate entry)))
    (FeedData.entries feeddata) feed.

Definition make_rss (w : world) (feeddata : FeedData) : result string :=
  let author := FeedData.author feeddata in
  if negb (truthy author) then Raise ValueError
  else
    let author := match author with Some a => a | None => "" end in
    writeString w (rss_feed author feeddata) "utf-8".

End Feed.

(** ** command/main.py *)

Inductive log_level : Type := ERROR | WARNING.

Definition log_record : Type := (log_level * string)%type.

(** The value returned and the records handed to [LOG]. *)
Definition validate_feeddata (data : FeedData) : bool * list log_record :=
  if negb (truthy (FeedData.author data)) then
    (false, [(ERROR, "解析データが異常です: 著者がありません。")])
  else if negb (truthy (FeedData.title data)) then
    (false, [(ERROR, "解析データが異常です: タイトルがありません。")])
  else if negb (truthy (FeedData.url data)) then
    (false, [(ERROR, "解析データが異常です: URLがありません。")])
  else
    match FeedData.entries data with
    | [] => (true, [(WARNING, "エントリがありません。")])
    | _ :: _ => (true, [])
    end.

(** *** Comparison of sort keys

    The key of an entry is the list [[entry.pubdate, entry.title]].  Two
    lists compare at their first unequal elements; [<] between [None]
    and anything is a [TypeError]. *)

Definition sort_key : Type := (option datetime * option string)%type.

Definition key (entry : Entry) : sort_key :=
  (Entry.pubdate entry, Entry.title entry).

Definition pubdate_eq (a b : option datetime) : bool :=
  match a, b with
  | None, None => true
  | Some x, Some y => Datetime.eqb x y
  | _, _ => false
  end.

Definition pubdate_lt (a b : option datetime) : result bool :=
  match a, b with
  | Some x, Some y => Ok (Datetime.ltb x y)
  | _, _ => Raise TypeError
  end.

Definition title_eq (a b : option string) : bool :=
  match a, b with
  | None, None => true
  | Some x, Some y => String.eqb x y
  | _, _ => false
  end.

Definition title_lt (a b : option string) : result bool :=
  match a, b with
  | Some x, Some y => Ok (String.ltb x y)
  | _, _ => Raise TypeError
  end.

Definition key_lt (a b : sort_key) : result bool :=
  if negb (pubdate_eq (fst a) (fst b)) then pubdate_lt (fst a) (fst b)
  else if negb (title_eq (snd a) (snd b)) then title_lt (snd a) (snd b)
  else Ok false.

(** *** [sorted]

    The built-in sort is a stable comparison sort that only asks [<] of
    the keys and lets an exception of the comparison through.  It is
    modelled by a stable insertion sort: the result of a stable sort
    does not depend on the algorithm, and neither does the exception on
    entries with and without a date ([AnySort.any_sort_raises] below).
    With [reverse=True] the list is reversed, sorted in ascending order
    and reversed again, which keeps entries of equal keys in their
    input order. *)

Section Sorted.
Context {A K : Type}.
Variable key_of : A -> K.
Variable lt : K -> K -> result bool.

(** [x] goes in front of the first element it is smaller than. *)
Fixpoint insert (x : A) (l : list A) : result (list A) :=
  match l with
  | [] => Ok [x]
  | y :: l' =>
      b <- lt (key_of x) (key_of y) ;;
      if b then Ok (x :: y :: l')
      else (r <- insert x l' ;; Ok (y :: r))
  end.

Fixpoint sort_into (acc : list A) (l : list A) : result (list A) :=
  match l with
  | [] => Ok acc
  | x :: l' => acc' <- insert x acc ;; sort_into acc' l'
  end.

Definition sorted (l : list A) (reverse : bool) : result (list A) :=
  if reverse then (r <- sort_into [] (rev l) ;; Ok (rev r))
  else sort_into [] l.
End Sorted.

(** [sep.join(l)]: a [TypeError] when an item is not a string. *)
Fixpoint str_join (sep : string) (l : list (option string)) : result string :=
  match l with
  | [] => Ok ""
  | None :: _ => Raise TypeError
  | [Some x] => Ok x
  | Some x :: l' => r <- str_join sep l' ;; Ok (x ++ sep ++ r)%string
  end.

(** [feed_list[0]] *)
Definition first_feed (feed_list : list FeedData) : result FeedData :=
  match feed_list with
  | [] => Raise IndexError
  | f :: _ => Ok f
  end.

(** The [FeedData] that [SingleFileOutputHandler.finish] builds from
    several feeds. *)
Definition merge (feed_list : list FeedData) : result FeedData :=
  authors <- str_join ", " (map FeedData.author feed_list) ;;
  first <- first_feed feed_list ;;
  entries <- sorted key key_lt (flat_map FeedData.entries feed_list) true ;;
  Ok (FeedData.mk
        (Some (authors ++ " - Yahoo!個人ニュース (非公式RSS)")%string)
        (FeedData.url first)
        (Some authors)
        (Some "")
        entries).

Section Finish.
Variable world : Type.
Variable refuses : Feedgenerator.Rss201rev2Feed -> option exn.
Variable document : world -> Feedgenerator.Rss201rev2Feed -> string -> string.

(** What [finish] hands to [self.output]; [w] and [w'] are the worlds
    of the two renderings of the merged feed. *)
Definition finish (w w' : world) (feed_list : list FeedData) : result string :=
  match feed_list with
  | [f] => make_rss world refuses document w f
  | _ =>
      data <- merge feed_list ;;
      out <- make_rss world refuses document w data ;;
      rss <- make_rss world refuses document w' data ;;
      Ok out
  end.
End Finish.

(** ** fetch.py *)

(** The characters [urllib.parse.quote] never encodes: letters, digits
    and [_.-~]. *)
Definition always_safe (c : ascii) : bool :=
  Re.range "a" "z" c || Re.range "A" "Z" c || Re.digit c
  || Re.one_of ["_"; "."; "-"; "~"]%char c.

Definition hex_digit (n : nat) : ascii :=
  nth n ["0"; "1"; "2"; "3"; "4"; "5"; "6"; "7"; "8"; "9";
         "A"; "B"; "C"; "D"; "E"; "F"]%char "0"%char.

(** One byte of the UTF-8 encoding: itself when safe, else [%XX]. *)
Definition quote_byte (c : ascii) : string :=
  if always_safe c then String c ""
  else
    let n := nat_of_ascii c in
    String "%" (String (hex_digit (n / 16)) (String (hex_digit (n mod 16)) "")).

(** [quote(key, safe='')] *)
Fixpoint quote (s : string) : string :=
  match s with
  | EmptyString => ""
  | String c s' => quote_byte c ++ quote s'
  end.

Definition byline_url : string := "https://news.yahoo.co.jp/byline/".

Definition top_url (key : string) : string := byline_url ++ quote key.

(** The answer of [requests.get(url)] followed by [raise_for_status()]:
    the text of the page, or the exception with its text. *)
Inductive fetched : Type :=
| Page (text : string)
| FetchFailed (ex : string).

(** ** command/main.py: author keys and options *)

(** [[-a-zA-Z0-9]] *)
Definition key_char (c : ascii) : bool :=
  Ascii.eqb "-" c || Re.range "a" "z" c || Re.range "A" "Z" c || Re.digit c.

(** [$]: the end of the text, or the line feed that ends it. *)
Definition at_end (rest : string) : bool :=
  String.eqb rest "" || String.eqb rest (String "010" "").

(** [KEY_PATTERN.match(key)] for [KEY_PATTERN = re.compile('[-a-zA-Z0-9]+$')] *)
Definition KEY_PATTERN_match (key : string) : option Re.groups :=
  Re.run (Re.GreedyPlus key_char) key []
    (fun rest g => if at_end rest then Some g else None).

(** The truth value of the match object. *)
Definition is_valid_key (key : string) : bool :=
  match KEY_PATTERN_match key with
  | Some _ => true
  | None => false
  end.

(** [COMMENT.sub('', line)] for [COMMENT = re.compile('#.*')]: the text
    from each [#] to the end of its line is dropped; [in_comment] tells
    whether such a text is being dropped. *)
Fixpoint comment_sub (in_comment : bool) (line : string) : string :=
  match line with
  | EmptyString => ""
  | String c rest =>
      if in_comment then
        if Re.dot c then comment_sub true rest
        else String c (comment_sub false rest)
      else if Ascii.eqb c "#" then comment_sub true rest
      else String c (comment_sub false rest)
  end.

(** [str.lstrip()]: the white space characters at the head go, of one
    byte or more. *)
Fixpoint lstrip (s : string) : string :=
  match s with
  | EmptyString => ""
  | String c r1 =>
      if Bs4.is_space c then lstrip r1
      else
        match r1 with
        | String d r2 =>
            if space2 c d then lstrip r2
            else
              match r2 with
              | String e r3 => if space3 c d e then lstrip r3 else s
              | EmptyString => s
              end
        | EmptyString => s
        end
  end.

(** [str.rstrip()]: a text that is all white space goes; else the
    first byte stays and the rest is stripped. *)
Fixpoint rstrip (s : string) : string :=
  match s with
  | EmptyString => ""
  | String c rest =>
      if String.eqb (lstrip s) "" then "" else String c (rstrip rest)
  end.

(** [str.strip()] *)
Definition strip (s : string) : string := rstrip (lstrip s).

(** The keys the generator yields, in order. *)
Fixpoint read_keys_from_lines (lines : list string) : list string :=
  match lines with
  | [] => []
  | line :: rest =>
      let line := strip (comment_sub false line) in
      if negb (String.eqb line "") then line :: read_keys_from_lines rest
      else read_keys_from_lines rest
  end.

(** [dict.fromkeys(lst)], the dict as the list of its keys in insertion
    order: a key that is already there keeps its place. *)
Fixpoint fromkeys (d : list string) (lst : list string) : list string :=
  match lst with
  | [] => d
  | k :: rest =>
      fromkeys (if existsb (String.eqb k) d then d else (d ++ [k])%list) rest
  end.

(** [list(dict.fromkeys(lst))]; the assertion on the version of the
    interpreter holds. *)
Definition remove_duplicates (lst : list string) : list string :=
  fromkeys [] lst.

(** What [parser.parse_args()] returns. *)
Module Namespace.
Record t : Type := mk {
  directory : option string;
  output : option string;
  f : option string;
  wait : Z;
  key : list string
}.
End Namespace.

(** The class [Args] once [parse_options] has filled it. *)
Module Args.
Record t : Type := mk {
  author_keys : list string;
  output_directory : option string;
  output_file : option string;
  http_wait : Z
}.
End Args.

(** How a run ends when it does not return: [exit(code)], or an
    exception nothing catches. *)
Inductive halt : Type :=
| SystemExit (code : Z)
| Uncaught (e : exn).

(** [readlines file] is the list of the lines of [file], [exists_ dir]
    tells whether the directory is there. *)
Definition parse_options (readlines : string -> list string)
    (exists_ : string -> bool) (args : Namespace.t)
    : list log_record * (Args.t + halt) :=
  let author_keys : list string := [] in
  let author_keys :=
    match Namespace.f args with
    | Some file =>
        if truthy (Some file)
        then (author_keys ++ read_keys_from_lines (readlines file))%list
        else author_keys
    | None => author_keys
    end in
  let author_keys := (author_keys ++ Namespace.key args)%list in
  let author_keys := remove_duplicates author_keys in
  let invalid_keys := filter (fun key => negb (is_valid_key key)) author_keys in
  let '(author_keys, log1) :=
    match invalid_keys with
    | [] => (author_keys, [])
    | _ :: _ =>
        (filter is_valid_key author_keys,
         [(WARNING,
           "著者キーとして妥当でないものを無視します: "
           ++ String.concat ", " invalid_keys)])
    end in
  let '(output_directory, output_file, log2) :=
    match Namespace.directory args with
    | Some dir =>
        if truthy (Some dir) then
          (Some dir, None,
           if exists_ dir then []
           else [(WARNING,
                  "ディレクトリ " ++ dir ++ " がありません。作成します。")])
        else (None, Namespace.output args, [])
    | None => (None, Namespace.output args, [])
    end in
  if (Namespace.wait args <? 1)%Z then
    ((log1 ++ log2 ++ [(ERROR, "指定されたアクセス間隔が不正です。")])%list,
     inr (SystemExit 1))
  else
    ((log1 ++ log2)%list,
     inl (Args.mk author_keys output_directory output_file (Namespace.wait args))).

(** ** command/main.py: the output handlers and the loop *)

(** Where text is written: the standard output, a file given by its
    path, or the file [name] of the directory [dir]. *)
Inductive target : Type :=
| Stdout
| File (path : string)
| FileIn (dir name : string).

(** What a run does to the world around it, in order: the operations
    it attempts. *)
Inductive event : Type :=
| Sleep (seconds : Z)
| HttpGet (url : string)
| Log (r : log_record)
| LogFetchFailed (ex : string)
| LogParseFailed (e : exn)
| Mkdir (dir : string)
| Open (t : target)
| Write (t : target) (text : string).

(** [key.replace('/', '_')] *)
Fixpoint replace_slash (key : string) : string :=
  match key with
  | EmptyString => ""
  | String c rest =>
      String (if Ascii.eqb c "/" then "_"%char else c) (replace_slash rest)
  end.

(** [key.replace('/', '_') + '.rss'] *)
Definition file_name (key : string) : string := replace_slash key ++ ".rss".

(** The two handlers, each with its attributes. *)
Inductive OutputHandler : Type :=
| SingleFileOutputHandler (feed_list : list FeedData) (outfile : target)
| SeparateFileOutputHandler (dir : string).

(** [SingleFileOutputHandler.output] *)
Definition output (outfile : target) (rss : string) : list event :=
  match outfile with
  | Stdout => [Write Stdout rss]
  | t => [Open t; Write t rss]
  end.

Section Main.
Variable world : Type.
Variable refuses : Feedgenerator.Rss201rev2Feed -> option exn.
Variable document : world -> Feedgenerator.Rss201rev2Feed -> string -> string.
(** The network, the parser of the markup and the clock; [world_of key]
    is the world in which the feed of [key] is rendered, [clock key] the
    time at which its page is parsed. *)
Variable http_get : string -> fetched.
Variable soup_of : string -> element.
Variable clock : string -> datetime.
Variable world_of : string -> world.
(** The file system of the directory mode: [io key op] is the exception
    the operation [op] raises while the feed of [key] is written, if it
    raises. *)
Variable io : string -> event -> option exn.
Variables w_finish w_finish' : world.

(** [fetch(key)] *)
Definition fetch (key : string) : fetched := http_get (top_url key).

(** How a call of [get_rss] ends: it returns the document, the request
    fails, or parsing or rendering raises. *)
Inductive outcome : Type :=
| Returned (rss : string)
| RequestFailed (ex : string)
| Raised (e : exn).

(** [get_rss(key)] of the package. *)
Definition get_rss (key : string) : outcome :=
  match fetch key with
  | FetchFailed ex => RequestFailed ex
  | Page html =>
      match parse (clock key) (soup_of html) with
      | Raise e => Raised e
      | Ok data =>
          match make_rss world refuses document (world_of key) data with
          | Ok rss => Returned rss
          | Raise e => Raised e
          end
      end
  end.

(** [handle_author_feed]: the events, and the handler afterwards or the
    exception.  In the directory mode the directory is made, the file
    is opened, the feed is rendered and the text is written; the first
    of these that raises ends the call. *)
Definition handle_author_feed (h : OutputHandler) (key : string)
    (data : FeedData) : list event * result OutputHandler :=
  match h with
  | SingleFileOutputHandler feed_list outfile =>
      ([], Ok (SingleFileOutputHandler (feed_list ++ [data])%list outfile))
  | SeparateFileOutputHandler dir =>
      let file := FileIn dir (file_name key) in
      match io key (Mkdir dir) with
      | Some e => ([Mkdir dir], Raise e)
      | None =>
          match io key (Open file) with
          | Some e => ([Mkdir dir; Open file], Raise e)
          | None =>
              match make_rss world refuses document (world_of key) data with
              | Raise e => ([Mkdir dir; Open file], Raise e)
              | Ok rss =>
                  match io key (Write file rss) with
                  | Some e => ([Mkdir dir; Open file; Write file rss], Raise e)
                  | None => ([Mkdir dir; Open file; Write file rss], Ok h)
                  end
              end
          end
      end
  end.

(** [output_handler.finish()]: with one feed, the feed is rendered and
    written; else the merged feed is rendered and written, and rendered
    once more. *)
Definition handler_finish (h : OutputHandler) : list event * result unit :=
  match h with
  | SingleFileOutputHandler feed_list outfile =>
      match feed_list with
      | [f] =>
          match make_rss world refuses document w_finish f with
          | Ok rss => (output outfile rss, Ok tt)
          | Raise e => ([], Raise e)
          end
      | _ =>
          match merge feed_list with
          | Raise e => ([], Raise e)
          | Ok data =>
              match make_rss world refuses document w_finish data with
              | Raise e => ([], Raise e)
              | Ok out =>
                  match make_rss world refuses document w_finish' data with
                  | Ok _ => (output outfile out, Ok tt)
                  | Raise e => (output outfile out, Raise e)
                  end
              end
          end
      end
  | SeparateFileOutputHandler _ => ([], Ok tt)
  end.

(** How the loop over the keys ends: it ran to its end with so many
    errors and this handler, or the run halted inside it. *)
Inductive loop_end : Type :=
| Completed (nerrors : nat) (h : OutputHandler)
| Halted (x : halt).

Definition then_ (ev : list event) (r : list event * loop_end)
    : list event * loop_end :=
  ((ev ++ fst r)%list, snd r).

Variable http_wait : Z.

(** The [for] loop of [main] from the state ([nerrors], [wait], the
    handler) it is in. *)
Fixpoint main_loop (keys : list string) (nerrors : nat) (wait : Z)
    (h : OutputHandler) : list event * loop_end :=
  match keys with
  | [] => ([], Completed nerrors h)
  | key :: rest =>
      if Nat.leb 2 nerrors then
        ([Log (ERROR, "失敗が複数回発生したため、処理を中断します。")],
         Halted (SystemExit 1))
      else
        match fetch key with
        | FetchFailed ex =>
            then_ [Sleep wait; HttpGet (top_url key); LogFetchFailed ex]
                  (main_loop rest (S nerrors) http_wait h)
        | Page html =>
            match parse (clock key) (soup_of html) with
            | Raise e =>
                then_ [Sleep wait; HttpGet (top_url key); LogParseFailed e]
                      (main_loop rest (S nerrors) http_wait h)
            | Ok data =>
                let (valid, logs) := validate_feeddata data in
                let ev := ([Sleep wait; HttpGet (top_url key)]
                           ++ map Log logs)%list in
                if valid then
                  match handle_author_feed h key data with
                  | (ev', Ok h') =>
                      then_ (ev ++ ev')%list (main_loop rest nerrors http_wait h')
                  | (ev', Raise e) => ((ev ++ ev')%list, Halted (Uncaught e))
                  end
                else then_ ev (main_loop rest (S nerrors) http_wait h)
            end
        end
  end.
End Main.

(** The handler [main] creates: that of the directory mode when a
    directory is set, else the one that writes to the file or, without
    a file, to the standard output. *)
Definition make_handler (args : Args.t) : OutputHandler :=
  let single :=
    SingleFileOutputHandler []
      (match Args.output_file args with
       | Some path => if truthy (Some path) then File path else Stdout
       | None => Stdout
       end) in
  match Args.output_directory args with
  | Some dir => if truthy (Some dir) then SeparateFileOutputHandler dir else single
  | None => single
  end.

Section MainEntry.
Variable world : Type.
Variable refuses : Feedgenerator.Rss201rev2Feed -> option exn.
Variable document : world -> Feedgenerator.Rss201rev2Feed -> string -> string.
Variable http_get : string -> fetched.
Variable soup_of : string -> element.
Variable clock : string -> datetime.
Variable world_of : string -> world.
Variable io : string -> event -> option exn.
Variables w_finish w_finish' : world.

(** [main()] after [parse_options()] has returned [args]. *)
Definition main (args : Args.t) : list event * halt :=
  let output_handler := make_handler args in
  match main_loop world refuses document http_get soup_of clock world_of io
          (Args.http_wait args) (Args.author_keys args) 0 0%Z output_handler with
  | (ev, Halted x) => (ev, x)
  | (ev, Completed nerrors h) =>
      match handler_finish world refuses document w_finish w_finish' h with
      | (ev', Ok _) =>
          ((ev ++ ev')%list, SystemExit (if Nat.eqb nerrors 0 then 0 else 1)%Z)
      | (ev', Raise e) => ((ev ++ ev')%list, Uncaught e)
      end
  end.

End MainEntry.

(** ** Notions of the statements *)

(** Absent in the sense of [not x]: [None] or the empty string. *)
Definition absent (o : option string) : Prop := o = None \/ o = Some "".


(** The control characters that XML 1.0 does not allow: U+0000 to
    U+0008, U+000B, U+000C and U+000E to U+001F. *)
Definition control_character (c : ascii) : bool :=
  let n := nat_of_ascii c in
  Nat.leb n 8 || Nat.eqb n 11 || Nat.eqb n 12 || Nat.leb 14 n && Nat.leb n 31.

Definition has_control (text : option string) : bool :=
  match text with
  | Some s => negb (Re.all_chars (fun c => negb (control_character c)) s)
  | None => false
  end.

(** A library that refuses the feeds with a control character in a
    text of the channel or of an item, as the XML generator of
    feedgenerator does, and no other feed. *)
Definition refuses_control (feed : Feedgenerator.Rss201rev2Feed) : option exn :=
  if has_control (Some (Feedgenerator.title feed))
     || has_control (Feedgenerator.link feed)
     || has_control (Feedgenerator.description feed)
     || has_control (Some (Feedgenerator.author_name feed))
     || existsb
          (fun i =>
             has_control (Feedgenerator.item_title i)
             || has_control (Feedgenerator.item_link i)
             || has_control (Feedgenerator.item_description i)
             || has_control (Some (Feedgenerator.item_author_name i)))
          (Feedgenerator.items feed)
  then Some UnserializableContentError
  else None.

(** A library that refuses no feed. *)
Definition refuses_nothing (feed : Feedgenerator.Rss201rev2Feed) : option exn :=
  None.

(** The entry has a publication date. *)
Definition dated (e : Entry) : bool :=
  match Entry.pubdate e with
  | Some _ => true
  | None => false
  end.

(** Both parts of the key are present. *)
Definition present_key (k : sort_key) : Prop :=
  fst k <> None /\ snd k <> None.

(** [==] on sort keys. *)
Definition key_eqb (a b : sort_key) : bool :=
  pubdate_eq (fst a) (fst b) && title_eq (snd a) (snd b).

(** Two entries that differ at most in their thumbnails. *)
Definition same_but_thumbnail (a b : Entry) : Prop :=
  Entry.url a = Entry.url b
  /\ Entry.title a = Entry.title b
  /\ Entry.summary a = Entry.summary b
  /\ Entry.pubdate a = Entry.pubdate b.

(** The list item has the attributes that are read from it, and its
    date, when it has one, resolves without an error. *)
Definition entry_ok (now : datetime) (x : element) : Prop :=
  (forall a, select1 x sel_entry_link = Some a ->
             Bs4.lookup "href" (Bs4.attrs a) <> None)
  /\ (forall i, select1 x sel_entry_thumbnail = Some i ->
                Bs4.lookup "src" (Bs4.attrs i) <> None)
  /\ (forall d, select1 x sel_entry_pubdate = Some d ->
                ~ raises (parse_pubdate now (Bs4.join_empty (Bs4.strings d)) None)).

(** [e] is the entry of the list item [x]; a slot missing from the item
    is a field absent from the entry. *)
Definition extracted (now : datetime) (x : element) (e : Entry) : Prop :=
  parse_entry now x = Ok e
  /\ (select1 x sel_entry_link = None -> Entry.url e = None)
  /\ (select1 x sel_entry_thumbnail = None -> Entry.thumbnail e = None)
  /\ (select1 x sel_entry_title = None -> Entry.title e = None)
  /\ (select1 x sel_entry_summary = None -> Entry.summary e = None)
  /\ (select1 x sel_entry_pubdate = None -> Entry.pubdate e = None).

(** ** Devices of the proofs *)

(** A string of decimal digits, not empty. *)
Definition digits (s : string) : Prop :=
  s <> "" /\ Re.all_chars Re.digit s = true.

(** The insertion sort without the exceptions, for keys whose comparison
    does not raise. *)
Section PureSort.
Context {A K : Type}.
Variable key_of : A -> K.
Variable ltb : K -> K -> bool.

Fixpoint pinsert (x : A) (l : list A) : list A :=
  match l with
  | [] => [x]
  | y :: l' =>
      if ltb (key_of x) (key_of y) then x :: y :: l' else y :: pinsert x l'
  end.

Fixpoint psort_into (acc l : list A) : list A :=
  match l with
  | [] => acc
  | x :: l' => psort_into (pinsert x acc) l'
  end.
End PureSort.

(** Strict total orders: irreflexive, transitive, and two values that
    neither is below are one. *)
Record strict_total {X : Type} (ltb : X -> X -> bool) : Prop := {
  st_irrefl : forall a, ltb a a = false;
  st_trans : forall a b c, ltb a b = true -> ltb b c = true -> ltb a c = true;
  st_total : forall a b, ltb a b = false -> ltb b a = false -> a = b
}.

(** The order of two-element lists: by the first elements where they
    differ, else by the second. *)
Definition lex {X Y : Type} (lx ex : X -> X -> bool) (ly ey : Y -> Y -> bool)
    (a b : X * Y) : bool :=
  if negb (ex (fst a) (fst b)) then lx (fst a) (fst b)
  else if negb (ey (snd a) (snd b)) then ly (snd a) (snd b)
  else false.

(** The two total orders on sort keys that agree with [key_lt] wherever
    [key_lt] answers: [None] below every value, and [None] above every
    value.  For entries whose keys are all present the place given to
    [None] plays no part. *)
Definition opt_ltb {X : Type} (ltb : X -> X -> bool) (a b : option X) : bool :=
  match a, b with
  | None, Some _ => true
  | Some x, Some y => ltb x y
  | _, _ => false
  end.

Definition opt_ltb_last {X : Type} (ltb : X -> X -> bool) (a b : option X) : bool :=
  match a, b with
  | Some _, None => true
  | Some x, Some y => ltb x y
  | _, _ => false
  end.

Definition key_ltb (a b : sort_key) : bool :=
  lex (opt_ltb Datetime.ltb) pubdate_eq (opt_ltb String.ltb) title_eq a b.

Definition key_ltb_last (a b : sort_key) : bool :=
  lex (opt_ltb_last Datetime.ltb) pubdate_eq (opt_ltb_last String.ltb) title_eq a b.

(** The comparisons of a sorting algorithm on one input, whatever the
    algorithm: either the work is done, or two entries are compared and
    the work goes on according to the answer. *)
Inductive plan (A : Type) : Type :=
| Done (out : list A)
| Compare (x y : A) (yes no : plan A).
Arguments Done {A} out.
Arguments Compare {A} x y yes no.

Fixpoint follow {A K : Type} (key_of : A -> K) (lt : K -> K -> result bool)
    (p : plan A) : result (list A) :=
  match p with
  | Done out => Ok out
  | Compare x y yes no =>
      b <- lt (key_of x) (key_of y) ;;
      if b then follow key_of lt yes else follow key_of lt no
  end.

(** ** Notions of the further properties *)

Definition no_hash (c : ascii) : bool := negb (Ascii.eqb c "#").

(** What follows the white space character at the head of a text. *)
Definition space_head (s : string) : option string :=
  match s with
  | String c r1 =>
      if Bs4.is_space c then Some r1
      else
        match r1 with
        | String d r2 =>
            if space2 c d then Some r2
            else
              match r2 with
              | String e r3 => if space3 c d e then Some r3 else None
              | EmptyString => None
              end
        | EmptyString => None
        end
  | EmptyString => None
  end.

(** The text begins with a white space character. *)
Definition first_is_space (s : string) : bool :=
  match space_head s with
  | Some _ => true
  | None => false
  end.

(** The text ends with a white space character. *)
Fixpoint last_is_space (s : string) : bool :=
  match s with
  | EmptyString => false
  | String _ rest =>
      match space_head s with
      | Some EmptyString => true
      | _ => last_is_space rest
      end
  end.

(** A key as the reader of lines yields them: not empty, without [#],
    without white space at either end. *)
Definition clean_key (k : string) : Prop :=
  k <> ""
  /\ Re.all_chars no_hash k = true
  /\ first_is_space k = false
  /\ last_is_space k = false.

(** [k in d] *)
Definition mem (k : string) (d : list string) : bool := existsb (String.eqb k) d.

(** The keys a run is given: those of the key file, when one is named,
    then those of the command line. *)
Definition given_keys (readlines : string -> list string) (args : Namespace.t)
    : list string :=
  (match Namespace.f args with
   | Some file =>
       if String.eqb file "" then [] else read_keys_from_lines (readlines file)
   | None => []
   end ++ Namespace.key args)%list.

(** The characters of a quoted text: the safe ones and the percent
    sign. *)
Definition quoted_char (c : ascii) : bool := always_safe c || Ascii.eqb c "%".

(** The inverse of [quote], a device of the proof that [quote] is
    injective. *)
Definition hex_value (c : ascii) : nat :=
  if Re.digit c then nat_of_ascii c - 48 else nat_of_ascii c - 55.

Fixpoint unquote (s : string) : string :=
  match s with
  | EmptyString => ""
  | String c rest =>
      if Ascii.eqb c "%" then
        match rest with
        | String a (String b rest') =>
            String (ascii_of_nat (16 * hex_value a + hex_value b)) (unquote rest')
        | _ => String c (unquote rest)
        end
      else String c (unquote rest)
  end.







Section PageNotions.
Variable http_get : string -> fetched.
Variable soup_of : string -> element.
Variable clock : string -> datetime.

(** The feed the page of [key] gives: fetched, parsed and valid, or
    none. *)
Definition page_of (key : string) : option FeedData :=
  match http_get (top_url key) with
  | FetchFailed _ => None
  | Page html =>
      match parse (clock key) (soup_of html) with
      | Raise _ => None
      | Ok data => if fst (validate_feeddata data) then Some data else None
      end
  end.

Definition fails (key : string) : bool :=
  match page_of key with
  | Some _ => false
  | None => true
  end.

(** The number of keys that fail. *)
Definition failures (keys : list string) : nat :=
  List.length (filter fails keys).

(** The feeds of the keys that do not fail, in order. *)
Definition collected (keys : list string) : list FeedData :=
  flat_map (fun key => match page_of key with
                       | Some data => [data]
                       | None => []
                       end) keys.

End PageNotions.

(** The author a feed is rendered under. *)
Definition author_of (data : FeedData) : string :=
  match FeedData.author data with
  | Some a => a
  | None => ""
  end.

Section WriteNotions.
Variable world : Type.
Variable refuses : Feedgenerator.Rss201rev2Feed -> option exn.
Variable document : world -> Feedgenerator.Rss201rev2Feed -> string -> string.
Variable http_get : string -> fetched.
Variable soup_of : string -> element.
Variable clock : string -> datetime.
Variable world_of : string -> world.
Variable io : string -> event -> option exn.







End WriteNotions.


(** * Properties *)

(** ** Strings *)

Lemma append_assoc (a b c : string) : (a ++ b) ++ c = a ++ (b ++ c).
Proof. induction a as [|x a IH]; simpl; [reflexivity | now rewrite IH]. Qed.

Lemma append_nil_r (a : string) : a ++ "" = a.
Proof. induction a as [|x a IH]; simpl; [reflexivity | now rewrite IH]. Qed.

(** ** The matcher finds a match exactly when the pattern has one *)

Module ReFacts.
Import Re.

Section Run.
Context {A : Type}.
Implicit Types (k : string -> groups -> option A).

Lemma lazy_star_complete p s1 s2 g k :
  all_chars p s1 = true ->
  (forall g', k s2 g' <> None) ->
  lazy_star p (s1 ++ s2) g k <> None.
Proof.
  intros Hall Hk. induction s1 as [|c s1 IH]; simpl in *.
  - destruct s2; simpl; destruct (k _ g) eqn:E; try discriminate;
      now apply Hk in E.
  - apply andb_prop in Hall as [Hc Hall].
    destruct (k _ g); [discriminate|]. rewrite Hc. now apply IH.
Qed.

Lemma greedy_star_complete p s1 s2 g k :
  all_chars p s1 = true ->
  (forall g', k s2 g' <> None) ->
  greedy_star p (s1 ++ s2) g k <> None.
Proof.
  intros Hall Hk. induction s1 as [|c s1 IH]; simpl in *.
  - destruct s2 as [|c s2]; simpl; [apply Hk|].
    destruct (p c); [|apply Hk].
    destruct (greedy_star p s2 g k); [discriminate | apply Hk].
  - apply andb_prop in Hall as [Hc Hall]. rewrite Hc.
    specialize (IH Hall).
    destruct (greedy_star p (s1 ++ s2) g k); [discriminate | contradiction].
Qed.

Lemma lazy_star_sound p s g k x :
  lazy_star p s g k = Some x ->
  exists s1 s2, s = s1 ++ s2 /\ all_chars p s1 = true /\ k s2 g = Some x.
Proof.
  induction s as [|c s IH]; simpl; intros H.
  - destruct (k "" g) eqn:E; [|discriminate].
    exists "", "". now rewrite <- H.
  - destruct (k (String c s) g) eqn:E.
    + exists "", (String c s). now rewrite <- H.
    + destruct (p c) eqn:Hc; [|discriminate].
      destruct (IH H) as (s1 & s2 & -> & Hall & Hk).
      exists (String c s1), s2. simpl. now rewrite Hc.
Qed.

Lemma greedy_star_sound p s g k x :
  greedy_star p s g k = Some x ->
  exists s1 s2, s = s1 ++ s2 /\ all_chars p s1 = true /\ k s2 g = Some x.
Proof.
  induction s as [|c s IH]; simpl; intros H.
  - now exists "", "".
  - destruct (p c) eqn:Hc.
    + destruct (greedy_star p s g k) eqn:E.
      * inversion H; subst. destruct (IH eq_refl) as (s1 & s2 & -> & Hall & Hk).
        exists (String c s1), s2. simpl. now rewrite Hc.
      * now exists "", (String c s).
    + now exists "", (String c s).
Qed.
End Run.

Lemma run_complete {A} (r : regex) :
  forall s1 s2 g (k : string -> groups -> option A),
    lang r s1 ->
    (forall g', k s2 g' <> None) ->
    run r (s1 ++ s2) g k <> None.
Proof.
  induction r as [|p|r1 IH1 r2 IH2|r1 IH1 r2 IH2|r1 IH1|p|p|i r1 IH1];
    intros s1 s2 g k Hl Hk; simpl in *.
  - subst. apply Hk.
  - destruct Hl as (c & -> & Hc). simpl. rewrite Hc. apply Hk.
  - destruct Hl as (a & b & -> & Ha & Hb). rewrite append_assoc.
    apply IH1; [assumption|]. intros g'. now apply IH2.
  - destruct (run r1 (s1 ++ s2) g k) eqn:E; [discriminate|].
    destruct Hl as [Hl|Hl]; [|now apply IH2].
    exfalso. revert E. now apply IH1.
  - destruct (run r1 (s1 ++ s2) g k) eqn:E; [discriminate|].
    destruct Hl as [->|Hl]; [apply Hk|].
    exfalso. revert E. now apply IH1.
  - now apply lazy_star_complete.
  - destruct Hl as [Hne Hall]. destruct s1 as [|c s1]; [contradiction|].
    simpl in *. apply andb_prop in Hall as [Hc Hall]. rewrite Hc.
    now apply greedy_star_complete.
  - apply IH1; [assumption|]. intros g'. apply Hk.
Qed.

Lemma length_append (a b : string) :
  String.length (a ++ b) = String.length a + String.length b.
Proof. induction a as [|x a IH]; simpl; [reflexivity | now rewrite IH]. Qed.

Lemma substring_prefix (a b : string) :
  substring 0 (String.length a) (a ++ b) = a.
Proof.
  induction a as [|x a IH]; simpl.
  - now destruct b.
  - now rewrite IH.
Qed.

Lemma consumed_append (a b : string) : consumed (a ++ b) b = a.
Proof.
  unfold consumed. rewrite length_append.
  replace (String.length a + String.length b - String.length b)
    with (String.length a) by lia.
  apply substring_prefix.
Qed.

Lemma captures_lang (r : regex) :
  forall s g g', captures r s g g' -> lang r s.
Proof.
  induction r as [|p|r1 IH1 r2 IH2|r1 IH1 r2 IH2|r1 IH1|p|p|i r1 IH1];
    intros s g g' H; simpl in *.
  - tauto.
  - tauto.
  - destruct H as (s1 & s2 & gm & -> & H1 & H2).
    exists s1, s2. split; [reflexivity|]. split; [eapply IH1 | eapply IH2]; eauto.
  - destruct H as [H|H]; [left; eapply IH1 | right; eapply IH2]; eauto.
  - destruct H as [[H _]|H]; [now left | right; eapply IH1; eauto].
  - tauto.
  - tauto.
  - destruct H as (gm & H & _). eapply IH1; eauto.
Qed.

Lemma run_captures {A} (r : regex) :
  forall s g (k : string -> groups -> option A) x,
    run r s g k = Some x ->
    exists s1 s2 g', s = s1 ++ s2 /\ captures r s1 g g' /\ k s2 g' = Some x.
Proof.
  induction r as [|p|r1 IH1 r2 IH2|r1 IH1 r2 IH2|r1 IH1|p|p|i r1 IH1];
    intros s g k x H; simpl in *.
  - now exists "", s, g.
  - destruct s as [|c s]; [discriminate|]. destruct (p c) eqn:Hc; [|discriminate].
    exists (String c ""), s, g. repeat split; eauto.
  - apply IH1 in H as (a & rest & g1 & -> & Ha & H).
    apply IH2 in H as (b & s2 & g2 & -> & Hb & H).
    exists (a ++ b), s2, g2. rewrite append_assoc. repeat split; eauto 6.
  - destruct (run r1 s g k) eqn:E.
    + inversion H; subst. apply IH1 in E as (s1 & s2 & g' & ? & ? & ?).
      exists s1, s2, g'. auto.
    + apply IH2 in H as (s1 & s2 & g' & ? & ? & ?). exists s1, s2, g'. auto.
  - destruct (run r1 s g k) eqn:E.
    + inversion H; subst. apply IH1 in E as (s1 & s2 & g' & ? & ? & ?).
      exists s1, s2, g'. auto.
    + exists "", s, g. auto.
  - apply lazy_star_sound in H as (s1 & s2 & ? & ? & ?). exists s1, s2, g. auto.
  - destruct s as [|c s]; [discriminate|]. destruct (p c) eqn:Hc; [|discriminate].
    apply greedy_star_sound in H as (s1 & s2 & -> & Hall & H).
    exists (String c s1), s2, g. simpl. rewrite Hc. repeat split; auto.
    discriminate.
  - apply IH1 in H as (s1 & s2 & g' & -> & Hc & H).
    rewrite consumed_append in H. exists s1, s2, ((i, s1) :: g'). eauto.
Qed.

Lemma run_sound {A} (r : regex) s g (k : string -> groups -> option A) x :
  run r s g k = Some x ->
  exists s1 s2 g', s = s1 ++ s2 /\ lang r s1 /\ k s2 g' = Some x.
Proof.
  intros H. apply run_captures in H as (s1 & s2 & g' & ? & Hc & ?).
  apply captures_lang in Hc. eauto 6.
Qed.


Lemma rmatch_None r s :
  rmatch r s = None <-> ~ exists s1 s2, s = s1 ++ s2 /\ lang r s1.
Proof.
  unfold rmatch. split.
  - intros H (s1 & s2 & -> & Hl). revert H.
    apply run_complete; [assumption | discriminate].
  - intros H. destruct (run r s [] _) eqn:E; [|reflexivity].
    exfalso. apply H. apply run_sound in E as (s1 & s2 & _ & ? & ? & _). eauto.
Qed.



End ReFacts.

(** ** The publication date *)

Module PubdateFacts.
Import Re ReFacts.




Lemma int_digits_ok s : forall acc,
  all_chars digit s = true -> exists n, int_digits acc s = Ok n.
Proof.
  induction s as [|c s IH]; simpl; intros acc H; [eauto|].
  apply andb_prop in H as [Hc H]. rewrite Hc. now apply IH.
Qed.

Lemma int_ok s : digits s -> exists n, int (Some s) = Ok n.
Proof.
  intros [Hne H]. destruct s as [|c s]; [contradiction|].
  unfold int. now apply int_digits_ok.
Qed.








Lemma safe_int_group o :
  (o = None \/ exists y, o = Some y /\ digits y) ->
  exists r, safe_int o = Ok r.
Proof.
  intros [->|(y & -> & Hy)]; [now exists None|].
  unfold safe_int, truthy.
  destruct (String.eqb_spec y "") as [->|_]; [now destruct Hy|].
  destruct (int_ok y Hy) as [n ->]. simpl. eauto.
Qed.



End PubdateFacts.

(** C4.  The examples of the Date Resolver: a text without a year takes
    the reference year, a text with a year keeps it whatever the clock
    and the reference year, a text without date and time yields [None];
    both timestamps are at UTC+9.  Without a reference year the year of
    the clock (Tokyo time) is the reference year, and a match without
    a year component yields a timestamp in the reference year. *)
Theorem C4_date_resolver :
  (forall now,
     parse_pubdate now "9/2(Wed) 8:32" (Some 2020%Z)
     = Ok (Some (Datetime.mk 2020 9 2 8 32 TZ_TOKYO)))
  /\ Datetime.utcoffset (Datetime.mk 2020 9 2 8 32 TZ_TOKYO) = Some 32400%Z
  /\ (forall now this_year,
        parse_pubdate now "2019/12/3(Tue) 22:26" this_year
        = Ok (Some (Datetime.mk 2019 12 3 22 26 TZ_TOKYO)))
  /\ Datetime.utcoffset (Datetime.mk 2019 12 3 22 26 TZ_TOKYO) = Some 32400%Z
  /\ (forall now this_year,
        parse_pubdate now "no date here" this_year = Ok None)
  /\ (forall now s,
        parse_pubdate now s None = parse_pubdate now s (Some (Datetime.year now)))
  /\ (forall now s y m dt,
        Re.search pubdate_regexp s = Some m ->
        Re.group m 1 = None ->
        parse_pubdate now s (Some y) = Ok (Some dt) ->
        Datetime.year dt = y).
Proof.
  repeat split; try (intros; vm_compute; reflexivity).
  - intros now s y m dt Hm Hy. unfold parse_pubdate. rewrite Hm, Hy.
    cbn [safe_int truthy bind].
    destruct (int (Re.group m 2)) as [mo|]; [|discriminate].
    destruct (int (Re.group m 3)) as [d|]; [|discriminate].
    destruct (int (Re.group m 4)) as [h|]; [|discriminate].
    destruct (int (Re.group m 5)) as [mi|]; [|discriminate].
    cbn [bind not_int]. unfold Datetime.new.
    repeat match goal with
      | |- context [if ?b then _ else _] => destruct b
      end; cbn [bind]; try discriminate.
    intros H. inversion H. reflexivity.
Qed.

Lemma C4_date_resolver_witness :
  Datetime.year (Datetime.mk 2020 9 2 8 32 TZ_TOKYO) = 2020%Z.
Proof.
  refine (proj2 (proj2 (proj2 (proj2 (proj2 (proj2 C4_date_resolver)))))
            (Datetime.mk 2026 11 3 12 0 TZ_TOKYO) "9/2(Wed) 8:32" 2020%Z
            [(5, "32"); (4, "8"); (3, "2"); (2, "9")]
            (Datetime.mk 2020 9 2 8 32 TZ_TOKYO) _ _ _);
    vm_compute; reflexivity.
Defined.




(** ** Sorting *)

Section SortedFacts.
Context {A K : Type}.
Variable key_of : A -> K.
Variable lt : K -> K -> result bool.
Variable ltb : K -> K -> bool.
Variable eqb : K -> K -> bool.
Variable good : K -> Prop.

Hypothesis lt_ltb : forall a b, good a -> good b -> lt a b = Ok (ltb a b).
Hypothesis eqb_eq : forall a b, eqb a b = true <-> a = b.
Hypothesis ltb_irrefl : forall a, ltb a a = false.
Hypothesis ltb_trans :
  forall a b c, ltb a b = true -> ltb b c = true -> ltb a c = true.
Hypothesis ltb_total :
  forall a b, ltb a b = false -> ltb b a = false -> a = b.

Let goodA (x : A) : Prop := good (key_of x).
(** [asc x y]: [y] is not smaller than [x]. *)
Let asc (x y : A) : Prop := ltb (key_of y) (key_of x) = false.
Let desc (x y : A) : Prop := ltb (key_of x) (key_of y) = false.
Let same (k : K) (x : A) : bool := eqb k (key_of x).

Lemma pinsert_perm x l : Permutation (pinsert key_of ltb x l) (x :: l).
Proof.
  induction l as [|y l IH]; simpl; [reflexivity|].
  destruct (ltb _ _); [reflexivity|].
  rewrite IH. apply perm_swap.
Qed.

Lemma psort_into_perm l : forall acc,
  Permutation (psort_into key_of ltb acc l) (acc ++ l)%list.
Proof.
  induction l as [|x l IH]; intros acc; simpl.
  - now rewrite app_nil_r.
  - rewrite IH, pinsert_perm. apply Permutation_middle.
Qed.

Lemma insert_pure x l :
  goodA x -> Forall goodA l -> insert key_of lt x l = Ok (pinsert key_of ltb x l).
Proof.
  intros Hx Hl. induction Hl as [|y l Hy Hl IH]; simpl; [reflexivity|].
  rewrite (lt_ltb _ _ Hx Hy). cbn [bind].
  destruct (ltb _ _); [reflexivity|]. now rewrite IH.
Qed.

Lemma sort_into_pure l : forall acc,
  Forall goodA acc -> Forall goodA l ->
  sort_into key_of lt acc l = Ok (psort_into key_of ltb acc l).
Proof.
  induction l as [|x l IH]; intros acc Hacc Hl; simpl; [reflexivity|].
  inversion Hl as [|? ? Hx Hl']; subst.
  rewrite (insert_pure x acc Hx Hacc). cbn [bind]. apply IH; [|assumption].
  eapply Permutation_Forall; [symmetry; apply pinsert_perm|].
  now constructor.
Qed.

Lemma ltb_asym a b : ltb a b = true -> ltb b a = false.
Proof.
  intros H. destruct (ltb b a) eqn:E; [|reflexivity].
  rewrite <- (ltb_irrefl a). symmetry. eapply ltb_trans; eauto.
Qed.

(** Smaller than the head of a sorted list is smaller than all of it. *)
Lemma below_sorted x y l :
  ltb (key_of x) (key_of y) = true ->
  StronglySorted asc (y :: l) ->
  Forall (fun z => ltb (key_of x) (key_of z) = true) (y :: l).
Proof.
  intros Hxy Hs. apply StronglySorted_inv in Hs as [_ Hy].
  constructor; [assumption|].
  eapply Forall_impl; [|exact Hy]. intros z Hz. unfold asc in Hz.
  destruct (ltb (key_of x) (key_of z)) eqn:E; [reflexivity|].
  destruct (ltb (key_of z) (key_of x)) eqn:E'.
  - rewrite (ltb_trans _ _ _ E' Hxy) in Hz. discriminate.
  - rewrite (ltb_total _ _ E E') in Hxy. congruence.
Qed.

Lemma pinsert_sorted x l :
  StronglySorted asc l -> StronglySorted asc (pinsert key_of ltb x l).
Proof.
  induction l as [|y l IH]; intros Hs; simpl.
  - repeat constructor.
  - destruct (ltb (key_of x) (key_of y)) eqn:E.
    + constructor; [assumption|].
      eapply Forall_impl; [|exact (below_sorted x y l E Hs)].
      intros z Hz. now apply ltb_asym.
    + apply StronglySorted_inv in Hs as [Hs Hy].
      constructor; [now apply IH|].
      eapply Permutation_Forall; [symmetry; apply pinsert_perm|].
      now constructor.
Qed.

Lemma psort_into_sorted l : forall acc,
  StronglySorted asc acc -> StronglySorted asc (psort_into key_of ltb acc l).
Proof.
  induction l as [|x l IH]; intros acc Hs; simpl; [assumption|].
  apply IH. now apply pinsert_sorted.
Qed.

Lemma filter_above x l :
  Forall (fun z => ltb (key_of x) (key_of z) = true) l ->
  filter (same (key_of x)) l = [].
Proof.
  induction 1 as [|z l Hz Hl IH]; [reflexivity|].
  cbn [filter]. unfold same at 1.
  destruct (eqb (key_of x) (key_of z)) eqn:Ez; [|assumption].
  apply eqb_eq in Ez. rewrite <- Ez, ltb_irrefl in Hz. discriminate.
Qed.

(** An element goes behind the elements of its own key. *)
Lemma pinsert_filter x l k :
  StronglySorted asc l ->
  filter (same k) (pinsert key_of ltb x l) = filter (same k) (l ++ [x])%list.
Proof.
  induction l as [|y l IH]; intros Hs; [reflexivity|].
  cbn [pinsert]. destruct (ltb (key_of x) (key_of y)) eqn:E.
  - rewrite filter_app.
    change (filter (same k) (x :: y :: l))
      with (if same k x then x :: filter (same k) (y :: l)
            else filter (same k) (y :: l)).
    change (filter (same k) [x]) with (if same k x then [x] else []).
    destruct (same k x) eqn:Hk.
    + unfold same in Hk. apply eqb_eq in Hk. subst k.
      now rewrite (filter_above x (y :: l) (below_sorted x y l E Hs)).
    + now rewrite app_nil_r.
  - apply StronglySorted_inv in Hs as [Hs _].
    cbn [filter app]. rewrite (IH Hs). reflexivity.
Qed.

Lemma psort_into_filter l k : forall acc,
  StronglySorted asc acc ->
  filter (same k) (psort_into key_of ltb acc l) = filter (same k) (acc ++ l)%list.
Proof.
  induction l as [|x l IH]; intros acc Hs; simpl.
  - now rewrite app_nil_r.
  - rewrite IH by now apply pinsert_sorted.
    rewrite filter_app, pinsert_filter by assumption.
    rewrite <- filter_app, <- app_assoc. reflexivity.
Qed.

Lemma sorted_app (R : A -> A -> Prop) l1 l2 :
  StronglySorted R l1 -> StronglySorted R l2 ->
  (forall x y, In x l1 -> In y l2 -> R x y) ->
  StronglySorted R (l1 ++ l2)%list.
Proof.
  induction l1 as [|a l1 IH]; intros H1 H2 H; simpl; [assumption|].
  apply StronglySorted_inv in H1 as [H1 Ha].
  constructor.
  - apply IH; auto. intros x y Hx Hy. apply H; [now right | assumption].
  - apply Forall_app. split; [assumption|].
    apply Forall_forall. intros y Hy. apply H; [now left | assumption].
Qed.

Lemma sorted_rev l : StronglySorted asc l -> StronglySorted desc (rev l).
Proof.
  induction l as [|a l IH]; intros Hs; simpl; [constructor|].
  apply StronglySorted_inv in Hs as [Hs Ha].
  apply sorted_app; [now apply IH | repeat constructor |].
  intros x y Hx [<-|[]]. apply in_rev in Hx.
  rewrite Forall_forall in Ha. exact (Ha x Hx).
Qed.

(** On keys whose comparison does not raise, [sorted] with
    [reverse=True] returns the entries in descending order of their
    keys, entries of one key in their input order. *)
Lemma sorted_reverse_ok l :
  Forall goodA l ->
  exists out,
    sorted key_of lt l true = Ok out
    /\ Permutation out l
    /\ StronglySorted desc out
    /\ forall k, filter (same k) out = filter (same k) l.
Proof.
  intros Hl. exists (rev (psort_into key_of ltb [] (rev l))).
  unfold sorted. rewrite sort_into_pure; [| constructor | now apply Forall_rev].
  cbn [bind]. repeat split.
  - rewrite <- Permutation_rev, psort_into_perm. simpl.
    symmetry. apply Permutation_rev.
  - apply sorted_rev, psort_into_sorted. constructor.
  - intros k. rewrite filter_rev, psort_into_filter by constructor.
    simpl. rewrite filter_rev. apply rev_involutive.
Qed.

End SortedFacts.

(** ** The order of the sort keys *)

Module KeyOrder.

Lemma lex_ltb_irrefl a : Datetime.lex_ltb a a = false.
Proof.
  induction a as [|x a IH]; simpl; [reflexivity|].
  now rewrite Z.ltb_irrefl, Z.eqb_refl, IH.
Qed.

Lemma lex_ltb_trans a : forall b c,
  Datetime.lex_ltb a b = true -> Datetime.lex_ltb b c = true ->
  Datetime.lex_ltb a c = true.
Proof.
  induction a as [|x a IH]; intros [|y b] [|z c]; simpl; try discriminate; auto.
  intros H1 H2.
  apply orb_prop in H1 as [H1|H1]; apply orb_prop in H2 as [H2|H2];
    repeat match goal with
      | H : (_ && _) = true |- _ => apply andb_prop in H as [? ?]
      | H : (_ <? _)%Z = true |- _ => apply Z.ltb_lt in H
      | H : (_ =? _)%Z = true |- _ => apply Z.eqb_eq in H
      end; subst.
  - apply orb_true_intro. left. apply Z.ltb_lt. lia.
  - apply orb_true_intro. left. now apply Z.ltb_lt.
  - apply orb_true_intro. left. now apply Z.ltb_lt.
  - apply orb_true_intro. right. rewrite Z.eqb_refl. simpl. eauto.
Qed.

Lemma lex_ltb_total a : forall b,
  Datetime.lex_ltb a b = false -> Datetime.lex_ltb b a = false -> a = b.
Proof.
  induction a as [|x a IH]; intros [|y b]; simpl; try discriminate; auto.
  intros H1 H2.
  apply orb_false_elim in H1 as [H1 H1'], H2 as [H2 H2'].
  apply Z.ltb_ge in H1, H2. assert (x = y) by lia. subst y.
  rewrite Z.eqb_refl in H1', H2'. simpl in *. f_equal. now apply IH.
Qed.

Lemma lex_eqb_eq a : forall b, Datetime.lex_eqb a b = true <-> a = b.
Proof.
  induction a as [|x a IH]; intros [|y b]; simpl; split;
    try discriminate; auto.
  - intros H. apply andb_prop in H as [H1 H2].
    apply Z.eqb_eq in H1. apply IH in H2. now subst.
  - intros H. inversion H; subst. rewrite Z.eqb_refl. now apply IH.
Qed.

Lemma fields_inj x y : Datetime.fields x = Datetime.fields y -> x = y.
Proof.
  destruct x as [? ? ? ? ? []], y as [? ? ? ? ? []].
  unfold Datetime.fields. simpl. intros H. now inversion H.
Qed.

Lemma datetime_eqb_eq x y : Datetime.eqb x y = true <-> x = y.
Proof.
  unfold Datetime.eqb. rewrite lex_eqb_eq. split; [apply fields_inj | now intros ->].
Qed.

Lemma string_compare_refl s : String.compare s s = Eq.
Proof.
  pose proof (String.compare_antisym s s) as H.
  destruct (String.compare s s); simpl in H; congruence.
Qed.

Lemma string_ltb_irrefl s : String.ltb s s = false.
Proof. unfold String.ltb. now rewrite string_compare_refl. Qed.

Lemma string_compare_trans s1 : forall s2 s3,
  String.compare s1 s2 = Lt -> String.compare s2 s3 = Lt ->
  String.compare s1 s3 = Lt.
Proof.
  induction s1 as [|c1 s1 IH]; intros [|c2 s2] [|c3 s3]; simpl;
    try discriminate; auto.
  unfold Ascii.compare.
  destruct (N.compare_spec (N_of_ascii c1) (N_of_ascii c2)) as [E12|L12|G12];
    destruct (N.compare_spec (N_of_ascii c2) (N_of_ascii c3)) as [E23|L23|G23];
    destruct (N.compare_spec (N_of_ascii c1) (N_of_ascii c3)) as [E13|L13|G13];
    try discriminate; try lia; eauto.
Qed.

Lemma string_ltb_trans a b c :
  String.ltb a b = true -> String.ltb b c = true -> String.ltb a c = true.
Proof.
  unfold String.ltb. intros H1 H2.
  destruct (String.compare a b) eqn:E1; try discriminate.
  destruct (String.compare b c) eqn:E2; try discriminate.
  now rewrite (string_compare_trans a b c E1 E2).
Qed.

Lemma string_ltb_total a b :
  String.ltb a b = false -> String.ltb b a = false -> a = b.
Proof.
  unfold String.ltb. rewrite (String.compare_antisym b a).
  destruct (String.compare a b) eqn:E; simpl; try discriminate.
  intros _ _. now apply String.compare_eq_iff.
Qed.

Lemma pubdate_eq_eq a b : pubdate_eq a b = true <-> a = b.
Proof.
  destruct a as [x|], b as [y|]; simpl; try (split; [discriminate|discriminate]);
    [|tauto].
  rewrite datetime_eqb_eq. split; [now intros -> | now inversion 1].
Qed.

Lemma title_eq_eq a b : title_eq a b = true <-> a = b.
Proof.
  destruct a as [x|], b as [y|]; simpl; try (split; [discriminate|discriminate]);
    [|tauto].
  rewrite String.eqb_eq. split; [now intros -> | now inversion 1].
Qed.

Lemma strict_total_datetime : strict_total Datetime.ltb.
Proof.
  unfold Datetime.ltb. split.
  - intros a. apply lex_ltb_irrefl.
  - intros a b c. apply lex_ltb_trans.
  - intros a b H1 H2. apply fields_inj. now apply lex_ltb_total.
Qed.

Lemma strict_total_string : strict_total String.ltb.
Proof.
  split; [apply string_ltb_irrefl | apply string_ltb_trans | apply string_ltb_total].
Qed.

Lemma strict_total_opt {X} (ltb : X -> X -> bool) :
  strict_total ltb -> strict_total (opt_ltb ltb).
Proof.
  intros [Hi Ht Htot]. split.
  - intros [a|]; simpl; auto.
  - intros [a|] [b|] [c|]; simpl; try discriminate; eauto.
  - intros [a|] [b|]; simpl; try discriminate; auto.
    intros H1 H2. f_equal. now apply Htot.
Qed.

Section Lex.
Context {X Y : Type}.
Variables (lx ex : X -> X -> bool) (ly ey : Y -> Y -> bool).
Hypothesis ex_eq : forall a b, ex a b = true <-> a = b.
Hypothesis ey_eq : forall a b, ey a b = true <-> a = b.
Hypothesis stx : strict_total lx.
Hypothesis sty : strict_total ly.

Lemma ex_refl a : ex a a = true.
Proof. now apply ex_eq. Qed.

Lemma ey_refl a : ey a a = true.
Proof. now apply ey_eq. Qed.

Lemma lex_first a b : lx a b = true -> ex a b = false.
Proof.
  intros H. destruct (ex a b) eqn:E; [|reflexivity].
  apply ex_eq in E. subst. now rewrite (st_irrefl _ stx) in H.
Qed.

Lemma lex_second a b : ly a b = true -> ey a b = false.
Proof.
  intros H. destruct (ey a b) eqn:E; [|reflexivity].
  apply ey_eq in E. subst. now rewrite (st_irrefl _ sty) in H.
Qed.

Lemma strict_total_lex : strict_total (lex lx ex ly ey).
Proof.
  split.
  - intros [a1 a2]. unfold lex. simpl. now rewrite ex_refl, ey_refl.
  - intros [a1 a2] [b1 b2] [c1 c2]. unfold lex. simpl.
    destruct (ex a1 b1) eqn:Eab; simpl.
    + apply ex_eq in Eab. subst b1.
      destruct (ey a2 b2) eqn:Fab; simpl; [discriminate|]. intros H1.
      destruct (ex a1 c1) eqn:Eac; simpl; [|auto].
      destruct (ey b2 c2) eqn:Fbc; simpl; [discriminate|]. intros H2.
      pose proof (st_trans _ sty _ _ _ H1 H2) as H3.
      now rewrite (lex_second _ _ H3).
    + intros H1. destruct (ex b1 c1) eqn:Ebc; simpl.
      * apply ex_eq in Ebc. subst c1. rewrite Eab. simpl. auto.
      * intros H2. pose proof (st_trans _ stx _ _ _ H1 H2) as H3.
        now rewrite (lex_first _ _ H3).
  - intros [a1 a2] [b1 b2]. unfold lex. simpl.
    destruct (ex a1 b1) eqn:Eab; simpl.
    + apply ex_eq in Eab. subst b1. rewrite ex_refl. simpl.
      destruct (ey a2 b2) eqn:Fab; simpl.
      * apply ey_eq in Fab. now subst.
      * destruct (ey b2 a2) eqn:Fba; simpl.
        -- apply ey_eq in Fba. now subst.
        -- intros H1 H2. f_equal. now apply (st_total _ sty).
    + destruct (ex b1 a1) eqn:Eba; simpl.
      * apply ex_eq in Eba. subst. now rewrite ex_refl in Eab.
      * intros H1 H2. pose proof (st_total _ stx _ _ H1 H2) as ->.
        now rewrite ex_refl in Eab.
Qed.
End Lex.

Lemma strict_total_key : strict_total key_ltb.
Proof.
  apply (strict_total_lex _ pubdate_eq _ title_eq).
  - apply pubdate_eq_eq.
  - apply title_eq_eq.
  - apply strict_total_opt, strict_total_datetime.
  - apply strict_total_opt, strict_total_string.
Qed.

Lemma key_eqb_eq a b : key_eqb a b = true <-> a = b.
Proof.
  destruct a as [a1 a2], b as [b1 b2]. unfold key_eqb. simpl.
  rewrite andb_true_iff, pubdate_eq_eq, title_eq_eq.
  split; [now intros [-> ->] | now inversion 1].
Qed.

(** On present keys the comparison of the code answers, and answers
    as the total order does. *)
Lemma key_lt_present a b :
  present_key a -> present_key b -> key_lt a b = Ok (key_ltb a b).
Proof.
  destruct a as [[x|] [s|]], b as [[y|] [t|]]; unfold present_key; simpl;
    try tauto.
  intros _ _. unfold key_lt, key_ltb, lex. simpl.
  destruct (Datetime.eqb x y); simpl; [|reflexivity].
  destruct (String.eqb s t); reflexivity.
Qed.

End KeyOrder.

(** ** Merging feeds *)

Module MergeFacts.

(** *** Dated and undated entries do not compare *)

Lemma key_lt_mixed a b :
  dated a <> dated b -> key_lt (key a) (key b) = Raise TypeError.
Proof.
  unfold dated, key_lt, key. simpl.
  destruct (Entry.pubdate a), (Entry.pubdate b); simpl; congruence.
Qed.

Lemma key_lt_raise a b e : key_lt a b = Raise e -> e = TypeError.
Proof.
  unfold key_lt, pubdate_lt, title_lt.
  destruct (negb (pubdate_eq (fst a) (fst b))).
  - destruct (fst a), (fst b); congruence.
  - destruct (negb (title_eq (snd a) (snd b))); [|discriminate].
    destruct (snd a), (snd b); congruence.
Qed.

Lemma insert_raise x l e :
  insert key key_lt x l = Raise e -> e = TypeError.
Proof.
  induction l as [|y l IH]; simpl; [discriminate|].
  destruct (key_lt (key x) (key y)) as [b|e'] eqn:E; simpl.
  - destruct b; [discriminate|].
    destruct (insert key key_lt x l); simpl; [discriminate|].
    intros H. inversion H; subst. now apply IH.
  - intros H. inversion H; subst. eapply key_lt_raise; eauto.
Qed.

Lemma sort_into_raise l : forall acc e,
  sort_into key key_lt acc l = Raise e -> e = TypeError.
Proof.
  induction l as [|x l IH]; intros acc e; simpl; [discriminate|].
  destruct (insert key key_lt x acc) as [acc'|e'] eqn:E; simpl.
  - apply IH.
  - intros H. inversion H; subst. eapply insert_raise; eauto.
Qed.

Lemma sorted_raise l rev_ e :
  sorted key key_lt l rev_ = Raise e -> e = TypeError.
Proof.
  unfold sorted. destruct rev_; [|apply sort_into_raise].
  destruct (sort_into key key_lt [] (rev l)) eqn:E; simpl; [discriminate|].
  intros H. inversion H; subst. eapply sort_into_raise; eauto.
Qed.

(** Inserting next to entries of the other kind raises at the first
    comparison; inserting among entries of the same kind keeps the kind. *)
Lemma insert_kind x l r b :
  Forall (fun y => dated y = b) l ->
  insert key key_lt x l = Ok r ->
  (l = [] \/ dated x = b) /\ (dated x = b -> Forall (fun y => dated y = b) r).
Proof.
  intros Hl. revert r. induction Hl as [|y l Hy Hl IH]; intros r; simpl.
  - intros H. injection H as <-. split; [now left|]. intros Hx. now repeat constructor.
  - destruct (Bool.bool_dec (dated x) (dated y)) as [Exy|Exy];
      [|now rewrite (key_lt_mixed x y Exy)].
    destruct (key_lt (key x) (key y)) as [[]|]; simpl; try discriminate.
    + intros H. injection H as <-. split; [right; congruence|].
      intros Hx. now repeat constructor.
    + destruct (insert key key_lt x l) as [r'|] eqn:E; simpl; [|discriminate].
      intros H. injection H as <-. split; [right; congruence|].
      intros Hx. constructor; [assumption|]. now apply (IH r').
Qed.

Lemma insert_nonempty x l r : insert key key_lt x l = Ok r -> r <> [].
Proof.
  destruct l as [|y l]; simpl.
  - intros H. inversion H. discriminate.
  - destruct (key_lt (key x) (key y)) as [[]|]; simpl; try discriminate.
    + intros H. inversion H. discriminate.
    + destruct (insert key key_lt x l); simpl; [|discriminate].
      intros H. inversion H. discriminate.
Qed.

Lemma sort_into_kind l : forall acc r b,
  acc <> [] ->
  Forall (fun y => dated y = b) acc ->
  sort_into key key_lt acc l = Ok r ->
  Forall (fun y => dated y = b) l.
Proof.
  induction l as [|x l IH]; intros acc r b Hne Hacc; simpl; [constructor|].
  destruct (insert key key_lt x acc) as [acc'|] eqn:E; simpl; [|discriminate].
  intros H. destruct (insert_kind x acc acc' b Hacc E) as [[->|Hx] Hacc'];
    [contradiction|].
  constructor; [assumption|].
  apply (IH acc' r b); auto. eapply insert_nonempty; eauto.
Qed.

(** A list that sorts without an exception is all dated or all undated. *)
Lemma sort_one_kind l r :
  sort_into key key_lt [] l = Ok r ->
  forall x y, In x l -> In y l -> dated x = dated y.
Proof.
  destruct l as [|x0 l]; simpl; [contradiction|].
  intros H.
  assert (Hl : Forall (fun y => dated y = dated x0) (x0 :: l)).
  { constructor; [reflexivity|].
    apply (sort_into_kind l [x0] r); [discriminate | now repeat constructor | assumption]. }
  rewrite Forall_forall in Hl. intros x y Hx Hy.
  now rewrite (Hl x Hx), (Hl y Hy).
Qed.

Lemma sorted_mixed l rev_ x y :
  In x l -> In y l -> dated x <> dated y ->
  sorted key key_lt l rev_ = Raise TypeError.
Proof.
  intros Hx Hy Hxy.
  destruct (sorted key key_lt l rev_) as [r|e] eqn:E.
  - exfalso. apply Hxy. unfold sorted in E. destruct rev_.
    + destruct (sort_into key key_lt [] (rev l)) as [r'|] eqn:E'; [|discriminate].
      apply (sort_one_kind _ _ E'); now apply in_rev in Hx, Hy.
    + now apply (sort_one_kind _ _ E).
  - now rewrite (sorted_raise _ _ _ E).
Qed.

Lemma str_join_raise sep l e : str_join sep l = Raise e -> e = TypeError.
Proof.
  induction l as [|[x|] l IH]; simpl; try discriminate; [|congruence].
  destruct l as [|y l]; [discriminate|].
  destruct (str_join sep (y :: l)); simpl; [discriminate|].
  intros H. inversion H; subst. now apply IH.
Qed.

Lemma str_join_some sep names :
  str_join sep (map Some names) = Ok (String.concat sep names).
Proof.
  induction names as [|x names IH]; [reflexivity|].
  destruct names as [|y names]; [reflexivity|].
  change (str_join sep (map Some (x :: y :: names)))
    with (r <- str_join sep (map Some (y :: names)) ;; Ok (x ++ sep ++ r)).
  now rewrite IH.
Qed.

End MergeFacts.

(** C1.  Where the specification wants undated entries placed behind
    the dated ones, the merge raises: as soon as the feeds hold an entry without a
    publication date and one with a date, sorting compares [None] with
    a timestamp, and neither a merged feed nor an output is produced. *)
Theorem C1_merge_undated_raises (feed_list : list FeedData) (e1 e2 : Entry) :
  In e1 (flat_map FeedData.entries feed_list) ->
  In e2 (flat_map FeedData.entries feed_list) ->
  Entry.pubdate e1 = None ->
  Entry.pubdate e2 <> None ->
  merge feed_list = Raise TypeError
  /\ (2 <= List.length feed_list ->
      forall world refuses document w w',
        finish world refuses document w w' feed_list = Raise TypeError).
Proof.
  intros H1 H2 Hn Hs.
  assert (Hm : merge feed_list = Raise TypeError).
  { unfold merge.
    destruct (str_join ", " (map FeedData.author feed_list)) as [a|e] eqn:Ea;
      [|now rewrite (MergeFacts.str_join_raise _ _ _ Ea)].
    cbn [bind]. destruct feed_list as [|f rest]; [contradiction|].
    cbn [first_feed bind].
    rewrite (MergeFacts.sorted_mixed _ true e1 e2 H1 H2); [reflexivity|].
    unfold dated. rewrite Hn. destruct (Entry.pubdate e2); congruence. }
  split; [assumption|].
  intros Hlen world refuses document w w'. unfold finish.
  destruct feed_list as [|f [|f' rest]]; simpl in Hlen; try lia.
  now rewrite Hm.
Qed.

Lemma C1_merge_undated_raises_witness :
  let dt := Datetime.mk 2021 1 1 9 0 TZ_TOKYO in
  let e1 := Entry.mk (Some "https://x/b") (Some "b") (Some "") None None in
  let e2 := Entry.mk (Some "https://x/a") (Some "a") (Some "") (Some dt) None in
  let f1 := FeedData.mk (Some "Aの記事一覧") (Some "https://x/A") (Some "A") None [e2] in
  let f2 := FeedData.mk (Some "Bの記事一覧") (Some "https://x/B") (Some "B") None [e1] in
  fst (validate_feeddata f1) = true
  /\ fst (validate_feeddata f2) = true
  /\ merge [f1; f2] = Raise TypeError.
Proof.
  cbv zeta. split; [reflexivity|]. split; [reflexivity|].
  refine (proj1 (C1_merge_undated_raises _ _ _ _ _ _ _)).
  - simpl. right. left. reflexivity.
  - simpl. left. reflexivity.
  - reflexivity.
  - discriminate.
Defined.

(** ** The exception does not depend on the sorting algorithm

    Whatever comparisons an algorithm makes, if it sorts the input under
    both total orders that agree with [key_lt], then on entries with and
    without a date it meets a comparison that raises. *)

Module AnySort.

Lemma follow_agree {A K} (key_of : A -> K) (lt lt' : K -> K -> result bool) p :
  (forall a b r, lt a b = Ok r -> lt' a b = Ok r) ->
  forall out, follow key_of lt p = Ok out -> follow key_of lt' p = Ok out.
Proof.
  intros Hagree. induction p as [out'|x y yes IHyes no IHno]; intros out; simpl.
  - auto.
  - destruct (lt (key_of x) (key_of y)) as [b|] eqn:E; simpl; [|discriminate].
    rewrite (Hagree _ _ _ E). simpl. destruct b; auto.
Qed.

Lemma follow_raise p : forall e, follow key key_lt p = Raise e -> e = TypeError.
Proof.
  induction p as [out|x y yes IHyes no IHno]; intros e; simpl; [discriminate|].
  destruct (key_lt (key x) (key y)) as [[]|e'] eqn:E; simpl; auto.
  intros H. inversion H; subst. eapply MergeFacts.key_lt_raise; eauto.
Qed.

Lemma strict_total_opt_last {X} (ltb : X -> X -> bool) :
  strict_total ltb -> strict_total (opt_ltb_last ltb).
Proof.
  intros [Hi Ht Htot]. split.
  - intros [a|]; simpl; auto.
  - intros [a|] [b|] [c|]; simpl; try discriminate; eauto.
  - intros [a|] [b|]; simpl; try discriminate; auto.
    intros H1 H2. f_equal. now apply Htot.
Qed.

Lemma strict_total_key_last : strict_total key_ltb_last.
Proof.
  apply KeyOrder.strict_total_lex.
  - apply KeyOrder.pubdate_eq_eq.
  - apply KeyOrder.title_eq_eq.
  - apply strict_total_opt_last, KeyOrder.strict_total_datetime.
  - apply strict_total_opt_last, KeyOrder.strict_total_string.
Qed.

Lemma key_lt_first a b r : key_lt a b = Ok r -> Ok (key_ltb a b) = Ok r.
Proof.
  destruct a as [[x|] [s|]], b as [[y|] [t|]];
    unfold key_lt, key_ltb, lex; simpl;
    repeat match goal with
      | |- context [Datetime.eqb ?u ?v] => destruct (Datetime.eqb u v); simpl
      | |- context [String.eqb ?u ?v] => destruct (String.eqb u v); simpl
      end; congruence.
Qed.

Lemma key_lt_last a b r : key_lt a b = Ok r -> Ok (key_ltb_last a b) = Ok r.
Proof.
  destruct a as [[x|] [s|]], b as [[y|] [t|]];
    unfold key_lt, key_ltb_last, lex; simpl;
    repeat match goal with
      | |- context [Datetime.eqb ?u ?v] => destruct (Datetime.eqb u v); simpl
      | |- context [String.eqb ?u ?v] => destruct (String.eqb u v); simpl
      end; congruence.
Qed.

(** Sorting under a total order. *)
Lemma sorted_total (ltb : sort_key -> sort_key -> bool) (l : list Entry) :
  strict_total ltb ->
  exists out,
    sorted key (fun a b => Ok (ltb a b)) l true = Ok out
    /\ Permutation out l
    /\ StronglySorted (fun x y => ltb (key x) (key y) = false) out.
Proof.
  intros [Hi Ht Htot].
  destruct (sorted_reverse_ok key (fun a b => Ok (ltb a b)) ltb key_eqb
              (fun _ => True) (fun _ _ _ _ => eq_refl) KeyOrder.key_eqb_eq
              Hi Ht Htot l)
    as (out & Hout & Hperm & Hsorted & _).
  - apply Forall_forall. auto.
  - eauto.
Qed.

(** The first entry of a descending sort is not below any entry. *)
Lemma head_max (ltb : sort_key -> sort_key -> bool) (l out : list Entry) x :
  strict_total ltb ->
  Permutation out l ->
  StronglySorted (fun x y => ltb (key x) (key y) = false) out ->
  In x l ->
  exists h t, out = h :: t /\ ltb (key h) (key x) = false.
Proof.
  intros [Hi _ _] Hperm Hsorted Hx.
  apply (Permutation_in _ (Permutation_sym Hperm)) in Hx.
  destruct out as [|h t]; [contradiction|].
  exists h, t. split; [reflexivity|].
  destruct Hx as [<-|Hx]; [apply Hi|].
  apply StronglySorted_inv in Hsorted as [_ Hh].
  rewrite Forall_forall in Hh. now apply Hh.
Qed.

(** A plan that sorts [l] under both total orders raises under the
    comparison of the code when [l] holds an undated and a dated
    entry. *)
Theorem any_sort_raises (l : list Entry) (p : plan Entry) (e1 e2 : Entry) :
  In e1 l -> In e2 l ->
  Entry.pubdate e1 = None -> Entry.pubdate e2 <> None ->
  follow key (fun a b => Ok (key_ltb a b)) p
  = sorted key (fun a b => Ok (key_ltb a b)) l true ->
  follow key (fun a b => Ok (key_ltb_last a b)) p
  = sorted key (fun a b => Ok (key_ltb_last a b)) l true ->
  follow key key_lt p = Raise TypeError.
Proof.
  intros H1 H2 Hn Hs Hfirst Hlast.
  destruct (follow key key_lt p) as [out|e] eqn:E;
    [|now rewrite (follow_raise p e E)].
  exfalso.
  pose proof (follow_agree key key_lt _ p key_lt_first out E) as Ef.
  pose proof (follow_agree key key_lt _ p key_lt_last out E) as El.
  destruct (sorted_total key_ltb l KeyOrder.strict_total_key)
    as (o1 & Ho1 & Hp1 & Hs1).
  destruct (sorted_total key_ltb_last l strict_total_key_last)
    as (o2 & Ho2 & Hp2 & Hs2).
  assert (o1 = out) by congruence. assert (o2 = out) by congruence. subst o1 o2.
  destruct (head_max key_ltb l out e2 KeyOrder.strict_total_key Hp1 Hs1 H2)
    as (h & t & -> & Hh1).
  destruct (head_max key_ltb_last l (h :: t) e1 strict_total_key_last Hp2 Hs2 H1)
    as (h' & t' & Heq & Hh2).
  inversion Heq; subst h' t'. clear Heq.
  revert Hh1 Hh2. unfold key_ltb, key_ltb_last, lex, key. simpl. rewrite Hn.
  destruct (Entry.pubdate e2) as [d|]; [|contradiction].
  destruct (Entry.pubdate h); simpl; discriminate.
Qed.

End AnySort.

Example any_sort_raises_example :
  let dt := Datetime.mk 2021 1 1 9 0 TZ_TOKYO in
  let a := Entry.mk None (Some "a") None None None in
  let b := Entry.mk None (Some "b") None (Some dt) None in
  follow key key_lt (Compare a b (Done [b; a]) (Done [a; b])) = Raise TypeError.
Proof.
  intros dt a b. apply (AnySort.any_sort_raises [a; b] _ a b).
  - now left.
  - right. now left.
  - reflexivity.
  - discriminate.
  - vm_compute. reflexivity.
  - vm_compute. reflexivity.
Qed.

Module SortedEntries.

Lemma sorted_weaken {A} (R R' : A -> A -> Prop) (P : A -> Prop) l :
  Forall P l ->
  (forall a b, P a -> P b -> R a b -> R' a b) ->
  StronglySorted R l -> StronglySorted R' l.
Proof.
  intros HP HR Hs. induction Hs as [|a l Hs IH Ha]; [constructor|].
  inversion HP as [|? ? Pa Pl]; subst. constructor; [now apply IH|].
  rewrite Forall_forall in *. intros b Hb. apply HR; auto.
Qed.

(** Entries whose dates and titles are all present sort without an
    exception, in descending order of their keys; entries of one key
    keep their input order. *)
Lemma sorted_entries (l : list Entry) :
  Forall (fun e => present_key (key e)) l ->
  exists out,
    sorted key key_lt l true = Ok out
    /\ Permutation out l
    /\ StronglySorted (fun a b => key_lt (key a) (key b) = Ok false) out
    /\ forall k, filter (fun e => key_eqb k (key e)) out
                 = filter (fun e => key_eqb k (key e)) l.
Proof.
  intros Hl.
  destruct (sorted_reverse_ok key key_lt key_ltb key_eqb present_key
              KeyOrder.key_lt_present KeyOrder.key_eqb_eq
              (st_irrefl _ KeyOrder.strict_total_key)
              (st_trans _ KeyOrder.strict_total_key)
              (st_total _ KeyOrder.strict_total_key) l Hl)
    as (out & Hout & Hperm & Hsorted & Hstable).
  exists out. repeat split; try assumption.
  apply (sorted_weaken (fun x y => key_ltb (key x) (key y) = false) _
           (fun e => present_key (key e)) out).
  - eapply Permutation_Forall; [symmetry; exact Hperm | exact Hl].
  - intros a b Ha Hb H. now rewrite (KeyOrder.key_lt_present _ _ Ha Hb), H.
  - exact Hsorted.
Qed.

Lemma key_lt_dates a b x y :
  Entry.pubdate a = Some x -> Entry.pubdate b = Some y ->
  Datetime.eqb x y = false ->
  key_lt (key a) (key b) = Ok (Datetime.ltb x y).
Proof.
  intros Ha Hb H. unfold key_lt, key. simpl. rewrite Ha, Hb. simpl.
  now rewrite H.
Qed.

End SortedEntries.

(** A feed that passed the validation has an author. *)
Lemma validated_has_author (data : FeedData) :
  fst (validate_feeddata data) = true ->
  exists a, FeedData.author data = Some a /\ a <> "".
Proof.
  unfold validate_feeddata.
  destruct (FeedData.author data) as [a|]; simpl; [|discriminate].
  destruct (String.eqb_spec a "") as [->|Hne]; simpl; [discriminate|].
  intros _. now exists a.
Qed.

(** C3, as stated, fails.  The join of the authors needs every author:
    with an input whose author is absent the merge raises, whatever the
    entries. *)
Lemma C3_counterexample :
  let dt := Datetime.mk 2021 1 1 9 0 TZ_TOKYO in
  let e := Entry.mk (Some "https://x/a") (Some "a") (Some "") (Some dt) None in
  let f1 := FeedData.mk (Some "t") (Some "https://x/A") None None [e] in
  let f2 := FeedData.mk (Some "t") (Some "https://x/B") (Some "B") None [e] in
  2 <= List.length [f1; f2]
  /\ Forall (fun e => Entry.pubdate e <> None /\ Entry.title e <> None)
            (flat_map FeedData.entries [f1; f2])
  /\ merge [f1; f2] = Raise TypeError.
Proof.
  cbv zeta. split; [simpl; lia|]. split; [|reflexivity].
  repeat constructor; discriminate.
Qed.

(** C3 (amended).  For two or more feeds with present authors whose
    entries all have a publication date and a title, the merge returns
    a feed whose author is the authors joined by a comma and a blank in
    input order, whose url is the first feed's, and whose entries are
    all the inputs' entries in descending order of (pubdate, title),
    entries of equal keys in their input order.  Feeds with entries
    dated 2021-01-01, 2021-03-01 and 2021-02-01 give the order
    2021-03-01, 2021-02-01, 2021-01-01. *)
Theorem C3_merge_sorted :
  (forall (feed_list : list FeedData) (names : list string),
     2 <= List.length feed_list ->
     map FeedData.author feed_list = map Some names ->
     Forall (fun e => Entry.pubdate e <> None /\ Entry.title e <> None)
            (flat_map FeedData.entries feed_list) ->
     exists data,
       merge feed_list = Ok data
       /\ FeedData.author data = Some (String.concat ", " names)
       /\ option_map FeedData.url (hd_error feed_list) = Some (FeedData.url data)
       /\ Permutation (FeedData.entries data)
                      (flat_map FeedData.entries feed_list)
       /\ StronglySorted (fun a b => key_lt (key a) (key b) = Ok false)
                         (FeedData.entries data)
       /\ forall k,
            filter (fun e => key_eqb k (key e)) (FeedData.entries data)
            = filter (fun e => key_eqb k (key e))
                     (flat_map FeedData.entries feed_list))
  /\ (forall (f1 f2 : FeedData) (e1 e2 e3 : Entry) (a1 a2 : string)
             (h1 m1 h2 m2 h3 m3 : Z),
        FeedData.author f1 = Some a1 ->
        FeedData.author f2 = Some a2 ->
        FeedData.entries f1 = [e1; e2] ->
        FeedData.entries f2 = [e3] ->
        Entry.pubdate e1 = Some (Datetime.mk 2021 1 1 h1 m1 TZ_TOKYO) ->
        Entry.pubdate e2 = Some (Datetime.mk 2021 3 1 h2 m2 TZ_TOKYO) ->
        Entry.pubdate e3 = Some (Datetime.mk 2021 2 1 h3 m3 TZ_TOKYO) ->
        exists data,
          merge [f1; f2] = Ok data /\ FeedData.entries data = [e2; e3; e1]).
Proof.
  split.
  - intros feed_list names Hlen Hauthors Hentries.
    destruct (SortedEntries.sorted_entries _ Hentries)
      as (out & Hout & Hperm & Hsorted & Hstable).
    destruct feed_list as [|f rest]; [simpl in Hlen; lia|].
    eexists. unfold merge.
    rewrite Hauthors, MergeFacts.str_join_some. cbn [bind first_feed].
    rewrite Hout. cbn [bind]. split; [reflexivity|].
    cbn [FeedData.author FeedData.url FeedData.entries hd_error option_map].
    repeat split; assumption.
  - intros f1 f2 e1 e2 e3 a1 a2 h1 m1 h2 m2 h3 m3 Ha1 Ha2 Hf1 Hf2 H1 H2 H3.
    eexists. unfold merge. cbn [map]. rewrite Ha1, Ha2.
    cbn [str_join bind first_feed flat_map]. rewrite Hf1, Hf2.
    unfold sorted. cbn [app rev sort_into insert bind].
    rewrite (SortedEntries.key_lt_dates e2 e3 _ _ H2 H3 eq_refl).
    cbn [bind]. change (Datetime.ltb _ _) with false. cbv iota. cbn [insert bind].
    rewrite (SortedEntries.key_lt_dates e1 e3 _ _ H1 H3 eq_refl).
    cbn [bind]. change (Datetime.ltb _ _) with true. cbv iota.
    cbn [sort_into bind rev app]. split; reflexivity.
Qed.

Lemma C3_merge_sorted_witness :
  let d1 := Datetime.mk 2021 1 1 9 0 TZ_TOKYO in
  let d2 := Datetime.mk 2021 3 1 9 0 TZ_TOKYO in
  let d3 := Datetime.mk 2021 2 1 9 0 TZ_TOKYO in
  let e1 := Entry.mk (Some "https://x/1") (Some "one") (Some "") (Some d1) None in
  let e2 := Entry.mk (Some "https://x/2") (Some "two") (Some "") (Some d2) None in
  let e3 := Entry.mk (Some "https://x/3") (Some "three") (Some "") (Some d3) None in
  let f1 := FeedData.mk (Some "Aの記事一覧") (Some "https://x/A") (Some "A") None [e1; e2] in
  let f2 := FeedData.mk (Some "Bの記事一覧") (Some "https://x/B") (Some "B") None [e3] in
  exists data,
    merge [f1; f2] = Ok data
    /\ FeedData.author data = Some "A, B"
    /\ option_map FeedData.url (hd_error [f1; f2]) = Some (FeedData.url data)
    /\ Permutation (FeedData.entries data) [e1; e2; e3]
    /\ StronglySorted (fun a b => key_lt (key a) (key b) = Ok false)
                      (FeedData.entries data)
    /\ forall k,
         filter (fun e => key_eqb k (key e)) (FeedData.entries data)
         = filter (fun e => key_eqb k (key e)) [e1; e2; e3].
Proof.
  cbv zeta.
  refine (proj1 C3_merge_sorted _ ["A"; "B"] _ _ _).
  - simpl. lia.
  - reflexivity.
  - repeat constructor; discriminate.
Defined.

(** ** Validation and rendering *)

Lemma truthy_false_iff (o : option string) : truthy o = false <-> absent o.
Proof.
  unfold absent. destruct o as [s|]; simpl.
  - destruct (String.eqb_spec s "") as [->|Hne]; simpl.
    + split; auto.
    + split; [discriminate|]. intros [H|H]; [discriminate|]. now inversion H.
  - split; auto.
Qed.

Lemma truthy_true_iff (o : option string) : truthy o = true <-> ~ absent o.
Proof.
  rewrite <- truthy_false_iff. destruct (truthy o); split; congruence.
Qed.

(** C7.  The validation answers false exactly when the author, the
    title or the url is absent, the empty string counting as absent; a
    feed with the three present and no entries is valid and the only
    record logged is a warning. *)
Theorem C7_validate_feeddata (data : FeedData) :
  (fst (validate_feeddata data) = false <->
     absent (FeedData.author data) \/ absent (FeedData.title data)
     \/ absent (FeedData.url data))
  /\ (forall description entries,
        fst (validate_feeddata
               (FeedData.mk (Some "x") (Some "y") (Some "") description entries))
        = false)
  /\ (~ absent (FeedData.author data) ->
      ~ absent (FeedData.title data) ->
      ~ absent (FeedData.url data) ->
      FeedData.entries data = [] ->
      validate_feeddata data = (true, [(WARNING, "エントリがありません。")])).
Proof.
  unfold validate_feeddata. split; [|split].
  - rewrite <- !truthy_false_iff.
    destruct (truthy (FeedData.author data)); simpl; [|tauto].
    destruct (truthy (FeedData.title data)); simpl; [|tauto].
    destruct (truthy (FeedData.url data)); simpl; [|tauto].
    destruct (FeedData.entries data); simpl;
      (split; [discriminate | intros [H|[H|H]]; discriminate]).
  - reflexivity.
  - intros Ha Ht Hu He.
    apply truthy_true_iff in Ha, Ht, Hu. now rewrite Ha, Ht, Hu, He.
Qed.

Lemma C7_validate_feeddata_witness :
  validate_feeddata (FeedData.mk (Some "x") (Some "y") (Some "a") None [])
  = (true, [(WARNING, "エントリがありません。")]).
Proof.
  apply (proj2 (proj2 (C7_validate_feeddata
           (FeedData.mk (Some "x") (Some "y") (Some "a") None []))));
    simpl; try reflexivity; intros [H|H]; discriminate.
Defined.

(** C8, as stated, fails.  With an author the feed object goes to the
    library, and the library refuses a feed it cannot serialize: an
    author with a control character is present and rendering raises. *)
Lemma C8_counterexample :
  let feeddata :=
    FeedData.mk (Some "Aの記事一覧") (Some "https://x/A")
      (Some (String "A" (String "001" ""))) None [] in
  ~ absent (FeedData.author feeddata)
  /\ make_rss unit refuses_control (fun _ _ _ => "") tt feeddata
     = Raise UnserializableContentError.
Proof.
  cbv zeta. split; [|vm_compute; reflexivity].
  intros [H|H]; discriminate.
Qed.

(** C8 (amended).  Rendering raises exactly when the author is absent
    or the library refuses the feed object built for the author.  With
    an absent author it raises [ValueError]; with an author it returns
    or raises what [writeString] of the library does on the feed
    object, so when the library does not refuse, the document it writes
    for that object. *)
Theorem C8_make_rss_fails_iff (world : Type)
    (refuses : Feedgenerator.Rss201rev2Feed -> option exn)
    (document : world -> Feedgenerator.Rss201rev2Feed -> string -> string)
    (w : world) (feeddata : FeedData) :
  (raises (make_rss world refuses document w feeddata)
   <-> absent (FeedData.author feeddata)
       \/ exists a e,
            FeedData.author feeddata = Some a
            /\ refuses (rss_feed a feeddata) = Some e)
  /\ (absent (FeedData.author feeddata) ->
      make_rss world refuses document w feeddata = Raise ValueError)
  /\ (forall a,
        FeedData.author feeddata = Some a -> a <> "" ->
        make_rss world refuses document w feeddata
        = writeString world refuses document w (rss_feed a feeddata) "utf-8"
        /\ (refuses (rss_feed a feeddata) = None ->
            make_rss world refuses document w feeddata
            = Ok (document w (rss_feed a feeddata) "utf-8"))
        /\ (forall e,
              refuses (rss_feed a feeddata) = Some e ->
              make_rss world refuses document w feeddata = Raise e)).
Proof.
  pose proof (truthy_false_iff (FeedData.author feeddata)) as [Hf Ha].
  assert (Hp : forall a,
    FeedData.author feeddata = Some a -> a <> "" ->
    make_rss world refuses document w feeddata
    = writeString world refuses document w (rss_feed a feeddata) "utf-8").
  { intros a E Hne. unfold make_rss. rewrite E. cbn [truthy].
    destruct (String.eqb_spec a "") as [->|_]; [contradiction|reflexivity]. }
  assert (Hab : absent (FeedData.author feeddata) ->
    make_rss world refuses document w feeddata = Raise ValueError).
  { intros H. apply Ha in H. unfold make_rss. now rewrite H. }
  split; [|split].
  - unfold raises. split.
    + intros [e He].
      destruct (truthy (FeedData.author feeddata)) eqn:Ht;
        [|left; now apply Hf].
      right. destruct (FeedData.author feeddata) as [a|] eqn:E;
        [|discriminate].
      assert (Hne : a <> "").
      { cbn [truthy] in Ht. intros ->. discriminate. }
      rewrite (Hp a eq_refl Hne) in He. unfold writeString in He.
      destruct (refuses (rss_feed a feeddata)) as [e'|] eqn:Er; [|discriminate].
      exists a, e'. auto.
    + intros [H|(a & e & E & Er)].
      * exists ValueError. now apply Hab.
      * destruct (String.eqb_spec a "") as [->|Hne].
        -- exists ValueError. apply Hab. right. exact E.
        -- exists e. rewrite (Hp a E Hne). unfold writeString. now rewrite Er.
  - exact Hab.
  - intros a E Hne. split; [now apply Hp|]. rewrite (Hp a E Hne).
    unfold writeString. split.
    + now intros ->.
    + now intros e ->.
Qed.

Lemma C8_make_rss_fails_iff_witness :
  make_rss unit refuses_control (fun _ _ _ => "") tt
    (FeedData.mk None None (Some "") None [])
  = Raise ValueError.
Proof.
  apply (proj1 (proj2 (C8_make_rss_fails_iff unit refuses_control
                         (fun _ _ _ => "") tt
                         (FeedData.mk None None (Some "") None [])))).
  right. reflexivity.
Defined.

Lemma add_items_title author es : forall feed,
  Feedgenerator.title
    (fold_left
       (fun feed entry =>
          Feedgenerator.add_item feed
            (Feedgenerator.mkItem (Entry.title entry) (Entry.url entry)
               (Entry.summary entry) author (Entry.pubdate entry)))
       es feed)
  = Feedgenerator.title feed.
Proof.
  induction es as [|e es IH]; intros feed; [reflexivity|].
  cbn [fold_left]. now rewrite IH.
Qed.

Lemma rss_feed_title author feeddata :
  Feedgenerator.title (rss_feed author feeddata) = channel_title author.
Proof. unfold rss_feed. now rewrite add_items_title. Qed.

Lemma rss_feed_thumbnails author (d1 d2 : FeedData) :
  FeedData.url d1 = FeedData.url d2 ->
  FeedData.description d1 = FeedData.description d2 ->
  Forall2 same_but_thumbnail (FeedData.entries d1) (FeedData.entries d2) ->
  rss_feed author d1 = rss_feed author d2.
Proof.
  unfold rss_feed. intros -> -> H.
  generalize (Feedgenerator.mkFeed (channel_title author) (FeedData.url d2)
                (FeedData.description d2) "ja" author []).
  induction H as [|e1 e2 es1 es2 (Hu & Ht & Hs & Hp) H IH]; intros feed;
    [reflexivity|].
  cbn [fold_left]. rewrite Hu, Ht, Hs, Hp. apply IH.
Qed.

(** C10.  The rendered document does not depend on the title of the
    feed nor on the thumbnails of its entries: two feeds that agree on
    author, url, description and, entry by entry, on url, title, summary
    and publication date render alike.  Rendering a feed with an author
    is [writeString] of the library on the feed object, so the document
    the library writes for it when the library does not refuse it.  The
    title of the channel is the author followed by the fixed text. *)
Theorem C10_make_rss_ignores_title_and_thumbnails (world : Type)
    (refuses : Feedgenerator.Rss201rev2Feed -> option exn)
    (document : world -> Feedgenerator.Rss201rev2Feed -> string -> string)
    (w : world) (d1 d2 : FeedData) :
  FeedData.author d1 = FeedData.author d2 ->
  FeedData.url d1 = FeedData.url d2 ->
  FeedData.description d1 = FeedData.description d2 ->
  Forall2 same_but_thumbnail (FeedData.entries d1) (FeedData.entries d2) ->
  make_rss world refuses document w d1 = make_rss world refuses document w d2
  /\ forall a,
       FeedData.author d1 = Some a -> a <> "" ->
       make_rss world refuses document w d1
       = writeString world refuses document w (rss_feed a d1) "utf-8"
       /\ (refuses (rss_feed a d1) = None ->
           make_rss world refuses document w d1
           = Ok (document w (rss_feed a d1) "utf-8"))
       /\ Feedgenerator.title (rss_feed a d1)
          = a ++ " - Yahoo!ニュース個人 (非公式RSS)".
Proof.
  intros Ha Hu Hd He. split.
  - unfold make_rss. rewrite <- Ha.
    destruct (negb (truthy (FeedData.author d1))); [reflexivity|].
    now rewrite (rss_feed_thumbnails _ d1 d2 Hu Hd He).
  - intros a Hsome Hne.
    assert (H : make_rss world refuses document w d1
                = writeString world refuses document w (rss_feed a d1) "utf-8").
    { unfold make_rss. rewrite Hsome. simpl.
      destruct (String.eqb_spec a "") as [->|_]; [contradiction|reflexivity]. }
    split; [exact H|]. split; [|apply rss_feed_title].
    intros Hr. rewrite H. unfold writeString. now rewrite Hr.
Qed.

Lemma C10_make_rss_ignores_title_and_thumbnails_witness :
  let dt := Datetime.mk 2021 1 1 9 0 TZ_TOKYO in
  let e1 := Entry.mk (Some "https://x/1") (Some "one") (Some "s") (Some dt) None in
  let e2 := Entry.mk (Some "https://x/1") (Some "one") (Some "s") (Some dt)
              (Some "https://x/1.png") in
  let d1 := FeedData.mk (Some "Aの記事一覧") (Some "https://x/A") (Some "A") None [e1] in
  let d2 := FeedData.mk None (Some "https://x/A") (Some "A") None [e2] in
  make_rss unit refuses_control (fun _ f _ => Feedgenerator.title f) tt d1
  = make_rss unit refuses_control (fun _ f _ => Feedgenerator.title f) tt d2.
Proof.
  cbv zeta.
  refine (proj1 (C10_make_rss_ignores_title_and_thumbnails unit _ _ tt _ _ _ _ _ _));
    try reflexivity.
  repeat constructor.
Defined.

(** ** Extraction of the entries *)

Module ExtractFacts.

Lemma mapM_ok {A B} (f : A -> result B) (R : A -> B -> Prop) l :
  Forall (fun x => exists y, R x y /\ f x = Ok y) l ->
  exists ys, mapM f l = Ok ys /\ Forall2 R l ys.
Proof.
  induction 1 as [|x l (y & Hy & Hf) Hl (ys & Hys & HR)]; simpl.
  - exists []. split; [reflexivity | constructor].
  - exists (y :: ys). rewrite Hf, Hys. split; [reflexivity | now constructor].
Qed.

Lemma attr_of_ok x key :
  (forall a, x = Some a -> Bs4.lookup key (Bs4.attrs a) <> None) ->
  exists v, attr_of x key = Ok v /\ (x = None -> v = None).
Proof.
  intros H. destruct x as [a|]; simpl.
  - unfold Bs4.getitem. specialize (H a eq_refl).
    destruct (Bs4.lookup key (Bs4.attrs a)) as [v|]; [|contradiction].
    exists (Some v). split; [reflexivity | discriminate].
  - exists None. auto.
Qed.

(** A list item that has its attributes and a date that resolves gives
    an entry, with the fields of its missing slots absent. *)
Lemma parse_entry_ok now x :
  entry_ok now x -> exists e, extracted now x e /\ parse_entry now x = Ok e.
Proof.
  intros (Hlink & Hthumb & Hdate).
  unfold extracted, parse_entry, extract_entry_link, extract_entry_thumbnail,
    extract_entry_title, extract_entry_summary, extract_entry_pubdate.
  destruct (attr_of_ok (select1 x sel_entry_link) "href" Hlink) as (u & -> & Hu).
  destruct (attr_of_ok (select1 x sel_entry_thumbnail) "src" Hthumb) as (t & -> & Ht).
  cbn [bind].
  destruct (select1 x sel_entry_pubdate) as [d|] eqn:Ed.
  - specialize (Hdate d eq_refl).
    destruct (parse_pubdate now _ None) as [p|e] eqn:Ep;
      [|exfalso; apply Hdate; now exists e].
    cbn [bind]. eexists. split; [|reflexivity].
    cbn [Entry.url Entry.thumbnail Entry.title Entry.summary Entry.pubdate].
    repeat split; try assumption; try discriminate;
      intros H; now rewrite H.
  - cbn [bind]. eexists. split; [|reflexivity].
    cbn [Entry.url Entry.thumbnail Entry.title Entry.summary Entry.pubdate].
    repeat split; try assumption; try reflexivity;
      intros H; now rewrite H.
Qed.

End ExtractFacts.

(** C2, as stated, fails.  A date slot that names the 30th of
    February: the pattern is found
    and the calendar constructor raises, and with it the extraction of
    the whole container. *)
Lemma C2_counterexample :
  let now := Datetime.mk 2026 11 3 12 0 TZ_TOKYO in
  let item :=
    Bs4.Tag "li" [("class", "entry")]
      [Bs4.Tag "a" [("class", "entryBody"); ("href", "https://x/1")]
         [Bs4.Tag "dl" []
            [Bs4.Tag "dt" [("class", "ttl")] [Bs4.NavigableString "title"];
             Bs4.Tag "dd" [("class", "summary")] [Bs4.NavigableString "text"];
             Bs4.Tag "dd" [("class", "pubdate")]
               [Bs4.NavigableString "2/30(Sun) 10:00"]]]] in
  let doc :=
    Bs4.soup
      [Bs4.Tag "html" []
         [Bs4.Tag "head" [] [];
          Bs4.Tag "body" [] [Bs4.Tag "ul" [("id", "athr_al")] [item]]]] in
  extract_entries now doc = Raise ValueError.
Proof. vm_compute. reflexivity. Qed.

(** C2 (amended).  Without the container the entries are the empty
    sequence.  With it, when the list items have the attributes read
    from them and dates that resolve, the extraction returns one entry
    for each list item, in order, and a slot missing from an item (the
    anchor, the thumbnail image, the title, the summary or the date) is
    a field absent from its entry. *)
Theorem C2_extract_entries (now : datetime) (soup : element) :
  (Bs4.find_id soup "athr_al" = None -> extract_entries now soup = Ok [])
  /\ (forall list_,
        Bs4.find_id soup "athr_al" = Some list_ ->
        Forall (entry_ok now) (entry_elems list_) ->
        exists es,
          extract_entries now soup = Ok es
          /\ Forall2 (extracted now) (entry_elems list_) es).
Proof.
  unfold extract_entries. split.
  - now intros ->.
  - intros list_ -> Hok. apply ExtractFacts.mapM_ok.
    eapply Forall_impl; [|exact Hok].
    intros x Hx. now apply ExtractFacts.parse_entry_ok.
Qed.

Lemma C2_extract_entries_witness :
  let now := Datetime.mk 2026 11 3 12 0 TZ_TOKYO in
  let full :=
    Bs4.Tag "li" [("class", "entry")]
      [Bs4.Tag "a" [("class", "entryBody"); ("href", "https://x/1")]
         [Bs4.Tag "dl" []
            [Bs4.Tag "dt" [("class", "ttl")] [Bs4.NavigableString "first"];
             Bs4.Tag "dd" [("class", "thumb")]
               [Bs4.Tag "img" [("src", "https://x/1.png")] []];
             Bs4.Tag "dd" [("class", "summary")] [Bs4.NavigableString "text"];
             Bs4.Tag "dd" [("class", "pubdate")]
               [Bs4.NavigableString "9/2(Wed) 8:32"]]]] in
  let no_anchor :=
    Bs4.Tag "li" [("class", "entry")]
      [Bs4.Tag "dl" []
         [Bs4.Tag "dt" [("class", "ttl")] [Bs4.NavigableString "second"];
          Bs4.Tag "dd" [("class", "summary")] [Bs4.NavigableString "text"];
          Bs4.Tag "dd" [("class", "pubdate")]
            [Bs4.NavigableString "2019/12/3(Tue) 22:26"]]] in
  let doc :=
    Bs4.soup
      [Bs4.Tag "html" []
         [Bs4.Tag "head" [] [];
          Bs4.Tag "body" []
            [Bs4.Tag "ul" [("id", "athr_al")] [full; no_anchor]]]] in
  exists list_ es,
    extract_entries now doc = Ok es
    /\ Forall2 (extracted now) (entry_elems list_) es.
Proof.
  cbv zeta. eexists.
  refine (proj2 (C2_extract_entries _ _) _ _ _).
  - vm_compute. reflexivity.
  - repeat constructor;
      try (intros a H; vm_compute in H; inversion H; subst; vm_compute; discriminate);
      intros a H; vm_compute in H; inversion H; subst;
      intros [e He]; vm_compute in He; discriminate.
Defined.

(** An anchor without [href] is not covered by the statement above: the
    subscript raises. *)
Lemma anchor_without_href_raises :
  let now := Datetime.mk 2026 11 3 12 0 TZ_TOKYO in
  let item :=
    Bs4.Tag "li" [("class", "entry")]
      [Bs4.Tag "a" [("class", "entryBody")]
         [Bs4.Tag "dl" []
            [Bs4.Tag "dt" [("class", "ttl")] [Bs4.NavigableString "title"]]]] in
  let doc :=
    Bs4.soup
      [Bs4.Tag "html" []
         [Bs4.Tag "head" [] [];
          Bs4.Tag "body" [] [Bs4.Tag "ul" [("id", "athr_al")] [item]]]] in
  extract_entries now doc = Raise KeyError.
Proof. vm_compute. reflexivity. Qed.

(** ** Page data *)

Module AuthorFacts.
Import Re.

Lemma captures_str t : forall s g g',
  captures (str t) s g g' -> s = t /\ g' = g.
Proof.
  induction t as [|c t IH]; intros s g g'; simpl.
  - tauto.
  - intros (s1 & s2 & gm & -> & ((c' & -> & Hc) & ->) & H).
    apply IH in H as [-> ->]. apply Ascii.eqb_eq in Hc. now subst.
Qed.

(** A title that matches the pattern is the author, then the fixed
    text, then anything; the author is not empty and has no line feed. *)
Lemma author_match s g :
  rmatch author_regexp s = Some g ->
  exists a rest,
    group g 1 = Some a
    /\ s = a ++ author_suffix ++ rest
    /\ a <> "" /\ all_chars dot a = true.
Proof.
  unfold rmatch. intros H.
  apply ReFacts.run_captures in H as (s1 & s2 & g' & -> & Hc & Hk).
  inversion Hk; subst g'. unfold author_regexp in Hc. cbn [captures] in Hc.
  destruct Hc as (a & b & gm & -> & (gm0 & ((Hne & Hall) & ->) & ->) & Hb).
  apply captures_str in Hb as [-> ->].
  exists a, s2. rewrite append_assoc. repeat split; auto.
Qed.

End AuthorFacts.

(** When the head title has a text, the author is absent or the part of
    the title in front of the fixed text. *)
Lemma extract_author_prefix (soup : element) (t : element) (s : string) :
  select1 soup sel_head_title = Some t ->
  Bs4.string_ t = Some s ->
  extract_author soup = Ok None
  \/ exists a rest,
       extract_author soup = Ok (Some a)
       /\ s = a ++ author_suffix ++ rest /\ a <> "".
Proof.
  intros Ht Hs. unfold extract_author. rewrite Ht, Hs. cbn [re_match bind].
  destruct (Re.rmatch author_regexp s) as [g|] eqn:E; [|now left].
  apply AuthorFacts.author_match in E as (a & rest & Hg & -> & Hne & _).
  right. exists a, rest. rewrite Hg. simpl.
  destruct (String.eqb_spec a "") as [->|_]; [contradiction|auto].
Qed.

Example extract_author_example :
  extract_author
    (Bs4.soup
       [Bs4.Tag "html" []
          [Bs4.Tag "head" []
             [Bs4.Tag "title" []
                [Bs4.NavigableString "山田太郎の記事一覧 - 個人 - Yahoo!ニュース"]];
           Bs4.Tag "body" [] []]])
  = Ok (Some "山田太郎").
Proof. vm_compute. reflexivity. Qed.

Example extract_author_no_match :
  extract_author
    (Bs4.soup
       [Bs4.Tag "html" []
          [Bs4.Tag "head" []
             [Bs4.Tag "title" [] [Bs4.NavigableString "Yahoo!ニュース"]];
           Bs4.Tag "body" [] []]])
  = Ok None.
Proof. vm_compute. reflexivity. Qed.

(** C6.  A head title without a text, such as an empty [title]
    element, is handed to the pattern match as [None]: the author lookup
    raises and the parse of the page fails, where the specification wants the
    author absent. *)
Theorem C6_title_without_text_raises (now : datetime) (soup t : element) :
  select1 soup sel_head_title = Some t ->
  Bs4.string_ t = None ->
  extract_author soup = Raise TypeError
  /\ parse now soup = Raise TypeError.
Proof.
  intros Ht Hs.
  assert (H : extract_author soup = Raise TypeError).
  { unfold extract_author. now rewrite Ht, Hs. }
  split; [assumption|]. unfold parse. now rewrite H.
Qed.

Lemma C6_title_without_text_raises_witness :
  let now := Datetime.mk 2026 11 3 12 0 TZ_TOKYO in
  let doc :=
    Bs4.soup
      [Bs4.Tag "html" []
         [Bs4.Tag "head" []
            [Bs4.Tag "title" [] [];
             Bs4.Tag "meta" [("name", "description"); ("content", "text")] [];
             Bs4.Tag "link" [("rel", "canonical"); ("href", "https://x/A")] []];
          Bs4.Tag "body" [] []]] in
  extract_author doc = Raise TypeError /\ parse now doc = Raise TypeError.
Proof.
  cbv zeta.
  refine (C6_title_without_text_raises _ _ _ _ _).
  - vm_compute. reflexivity.
  - vm_compute. reflexivity.
Defined.

(** The same kind of failure in the description lookup: a description
    element without [content]. *)
Lemma description_without_content_raises :
  let now := Datetime.mk 2026 11 3 12 0 TZ_TOKYO in
  let doc :=
    Bs4.soup
      [Bs4.Tag "html" []
         [Bs4.Tag "head" []
            [Bs4.Tag "title" [] [Bs4.NavigableString "Aの記事一覧"];
             Bs4.Tag "meta" [("name", "description")] []];
          Bs4.Tag "body" [] []]] in
  extract_description doc = Raise KeyError /\ parse now doc = Raise KeyError.
Proof. split; vm_compute; reflexivity. Qed.

(** Rendering reads nothing but the feed it is given and what the
    serializer reads: when the serializer of the library is a function
    of the feed object alone, two renderings of one feed agree. *)
Remark make_rss_deterministic_serializer (world : Type)
    (refuses : Feedgenerator.Rss201rev2Feed -> option exn)
    (document : world -> Feedgenerator.Rss201rev2Feed -> string -> string)
    (feeddata : FeedData) (w w' : world) :
  (forall feed encoding, document w feed encoding = document w' feed encoding) ->
  make_rss world refuses document w feeddata = make_rss world refuses document w' feeddata.
Proof.
  intros H. unfold make_rss, writeString.
  destruct (negb (truthy (FeedData.author feeddata))); [reflexivity|].
  now rewrite H.
Qed.

(** * Further properties of the code *)

(** ** Author keys *)

Module KeyFacts.
Import Re.

Lemma at_end_iff rest : at_end rest = true <-> rest = "" \/ rest = String "010" "".
Proof.
  unfold at_end. rewrite orb_true_iff, !String.eqb_eq. tauto.
Qed.

Lemma all_chars_append p a b :
  all_chars p (a ++ b) = all_chars p a && all_chars p b.
Proof.
  induction a as [|c a IH]; simpl; [reflexivity|].
  now rewrite IH, andb_assoc.
Qed.

Lemma all_chars_impl (p q : ascii -> bool) s :
  (forall c, p c = true -> q c = true) ->
  all_chars p s = true -> all_chars q s = true.
Proof.
  intros Hpq. induction s as [|c s IH]; simpl; [reflexivity|].
  intros H. apply andb_prop in H as [Hc Hs]. now rewrite (Hpq c Hc), IH.
Qed.

(** The characters of a key are not the slash... *)
Lemma key_char_not_slash c : key_char c = true -> Ascii.eqb c "/" = false.
Proof.
  destruct c as [[] [] [] [] [] [] [] []]; vm_compute; congruence.
Qed.

(** ... and are among those [quote] leaves alone. *)
Lemma key_char_safe c : key_char c = true -> always_safe c = true.
Proof.
  destruct c as [[] [] [] [] [] [] [] []]; vm_compute; congruence.
Qed.

Lemma valid_key_shape key :
  is_valid_key key = true ->
  exists body,
    body <> "" /\ all_chars key_char body = true
    /\ (key = body \/ key = body ++ String "010" "").
Proof.
  unfold is_valid_key, KEY_PATTERN_match.
  destruct (run _ key [] _) as [g|] eqn:E; [|discriminate]. intros _.
  apply ReFacts.run_sound in E as (s1 & s2 & g' & -> & (Hne & Hall) & Hk).
  destruct (at_end s2) eqn:Hend; [|discriminate].
  apply at_end_iff in Hend as [->| ->]; exists s1.
  - rewrite append_nil_r. auto.
  - auto.
Qed.

End KeyFacts.

(** X1.  A key is valid exactly when it is a text of one or more letters,
    digits and hyphens, or such a text followed by one line feed. *)
Theorem is_valid_key_iff (key : string) :
  is_valid_key key = true <->
  exists body,
    body <> "" /\ Re.all_chars key_char body = true
    /\ (key = body \/ key = body ++ String "010" "").
Proof.
  split; [apply KeyFacts.valid_key_shape|].
  unfold is_valid_key, KEY_PATTERN_match.
  - intros (body & Hne & Hall & Hkey).
    assert (H : exists s2, key = body ++ s2 /\ at_end s2 = true).
    { destruct Hkey as [->| ->]; [exists "" | exists (String "010" "")];
        split; try reflexivity. now rewrite append_nil_r. }
    destruct H as (s2 & -> & Hend).
    destruct (Re.run _ (body ++ s2) [] _) eqn:E; [reflexivity|].
    exfalso. revert E. apply ReFacts.run_complete.
    + simpl. auto.
    + intros g'. rewrite Hend. discriminate.
Qed.

(** A valid key holds no slash. *)
Lemma valid_key_no_slash (key : string) :
  is_valid_key key = true ->
  Re.all_chars (fun c => negb (Ascii.eqb c "/")) key = true.
Proof.
  intros H. apply KeyFacts.valid_key_shape in H as (body & _ & Hall & Hkey).
  assert (Hb : Re.all_chars (fun c => negb (Ascii.eqb c "/")) body = true).
  { eapply KeyFacts.all_chars_impl; [|exact Hall].
    intros c Hc. now rewrite (KeyFacts.key_char_not_slash c Hc). }
  destruct Hkey as [->| ->]; [assumption|].
  rewrite KeyFacts.all_chars_append, Hb. reflexivity.
Qed.

(** ** File names of the directory mode *)

Module FileNameFacts.
Import Re.

Lemma replace_slash_no_slash key :
  all_chars (fun c => negb (Ascii.eqb c "/")) (replace_slash key) = true.
Proof.
  induction key as [|c key IH]; simpl; [reflexivity|].
  rewrite IH, andb_true_r.
  destruct (Ascii.eqb_spec c "/") as [->|Hne]; [reflexivity|].
  now apply negb_true_iff, Ascii.eqb_neq.
Qed.

Lemma replace_slash_id key :
  all_chars (fun c => negb (Ascii.eqb c "/")) key = true ->
  replace_slash key = key.
Proof.
  induction key as [|c key IH]; simpl; [reflexivity|].
  intros H. apply andb_prop in H as [Hc Hk].
  apply negb_true_iff in Hc. now rewrite Hc, IH.
Qed.

Lemma append_inj_r (a b s : string) : a ++ s = b ++ s -> a = b.
Proof.
  revert b. induction a as [|x a IH]; intros [|y b] H; simpl in *.
  - reflexivity.
  - exfalso. assert (L : String.length s = String.length (String y (b ++ s)))
      by now rewrite <- H.
    simpl in L. rewrite ReFacts.length_append in L. lia.
  - exfalso. assert (L : String.length (String x (a ++ s)) = String.length s)
      by now rewrite H.
    simpl in L. rewrite ReFacts.length_append in L. lia.
  - inversion H; subst. f_equal. now apply IH.
Qed.

End FileNameFacts.

(** X2.  Whatever the key, the name of its file holds no slash: the file is
    an entry of the directory itself. *)
Theorem file_name_no_slash (key : string) :
  Re.all_chars (fun c => negb (Ascii.eqb c "/")) (file_name key) = true.
Proof.
  unfold file_name. rewrite KeyFacts.all_chars_append.
  now rewrite FileNameFacts.replace_slash_no_slash.
Qed.

(** X3.  For valid keys the name of the file is the key followed by [.rss],
    and two keys have one file only when they are one key; the keys
    [a/b] and [a_b], which are not valid, share their file. *)
Theorem file_name_valid_keys :
  (forall key, is_valid_key key = true -> file_name key = key ++ ".rss")
  /\ (forall key key',
        is_valid_key key = true -> is_valid_key key' = true ->
        file_name key = file_name key' -> key = key')
  /\ file_name "a/b" = file_name "a_b".
Proof.
  assert (H : forall key, is_valid_key key = true -> file_name key = key ++ ".rss").
  { intros key Hv. unfold file_name.
    now rewrite (FileNameFacts.replace_slash_id key (valid_key_no_slash key Hv)). }
  split; [exact H|]. split; [|reflexivity].
  intros key key' Hv Hv'. rewrite (H key Hv), (H key' Hv').
  apply FileNameFacts.append_inj_r.
Qed.

Lemma file_name_valid_keys_witness :
  file_name "yamada-taro" = "yamada-taro.rss".
Proof.
  apply (proj1 file_name_valid_keys). vm_compute. reflexivity.
Defined.

(** ** Reading keys from lines *)

Module LinesFacts.
Import Re.

Lemma comment_sub_no_hash s : forall b,
  all_chars no_hash (comment_sub b s) = true.
Proof.
  induction s as [|c s IH]; intros b; simpl; [reflexivity|].
  destruct b.
  - destruct (dot c) eqn:Hd; [apply IH|]. simpl. rewrite IH, andb_true_r.
    unfold dot in Hd. apply negb_false_iff, Ascii.eqb_eq in Hd. now subst.
  - destruct (Ascii.eqb c "#") eqn:Hc; [apply IH|]. simpl.
    unfold no_hash at 1. now rewrite Hc, IH.
Qed.

Lemma comment_sub_id s :
  all_chars no_hash s = true -> comment_sub false s = s.
Proof.
  induction s as [|c s IH]; simpl; [reflexivity|].
  intros H. apply andb_prop in H as [Hc Hs].
  unfold no_hash in Hc. apply negb_true_iff in Hc. now rewrite Hc, IH.
Qed.

(** The text of a comment goes, the end of the line stays. *)
Lemma comment_sub_comment a c rest :
  all_chars no_hash a = true ->
  all_chars dot c = true ->
  comment_sub false (a ++ "#" ++ c ++ String "010" rest)
  = a ++ String "010" (comment_sub false rest).
Proof.
  intros Ha Hc. induction a as [|x a IH]; simpl in *.
  - induction c as [|y c IHc]; simpl in *; [reflexivity|].
    apply andb_prop in Hc as [Hy Hc]. rewrite Hy. now apply IHc.
  - apply andb_prop in Ha as [Hx Ha]. unfold no_hash in Hx.
    apply negb_true_iff in Hx. now rewrite Hx, IH.
Qed.

Lemma space_head_shorter s r :
  space_head s = Some r -> String.length r < String.length s.
Proof.
  unfold space_head. destruct s as [|c [|d [|e r3]]]; try discriminate.
  - destruct (Bs4.is_space c); [|discriminate]. intros [= <-]. simpl. lia.
  - destruct (Bs4.is_space c); [intros [= <-]; simpl; lia|].
    destruct (space2 c d); [|discriminate]. intros [= <-]. simpl. lia.
  - destruct (Bs4.is_space c); [intros [= <-]; simpl; lia|].
    destruct (space2 c d); [intros [= <-]; simpl; lia|].
    destruct (space3 c d e); [|discriminate]. intros [= <-]. simpl. lia.
Qed.

Lemma space_head_split s r : space_head s = Some r -> exists w, s = w ++ r.
Proof.
  unfold space_head. destruct s as [|c [|d [|e r3]]]; try discriminate.
  - destruct (Bs4.is_space c); [|discriminate]. intros [= <-].
    now exists (String c "").
  - destruct (Bs4.is_space c); [intros [= <-]; now exists (String c "")|].
    destruct (space2 c d); [|discriminate]. intros [= <-].
    now exists (String c (String d "")).
  - destruct (Bs4.is_space c); [intros [= <-]; now exists (String c "")|].
    destruct (space2 c d);
      [intros [= <-]; now exists (String c (String d ""))|].
    destruct (space3 c d e); [|discriminate]. intros [= <-].
    now exists (String c (String d (String e ""))).
Qed.

Lemma space_head_append s r t :
  space_head s = Some r -> space_head (s ++ t) = Some (r ++ t).
Proof.
  unfold space_head. destruct s as [|c [|d [|e r3]]]; try discriminate;
    cbn [append].
  - destruct (Bs4.is_space c); [|discriminate]. now intros [= <-].
  - destruct (Bs4.is_space c); [now intros [= <-]|].
    destruct (space2 c d); [|discriminate]. now intros [= <-].
  - destruct (Bs4.is_space c); [now intros [= <-]|].
    destruct (space2 c d); [now intros [= <-]|].
    destruct (space3 c d e); [|discriminate]. now intros [= <-].
Qed.

(** [lstrip] takes the white space characters off the head one by one. *)
Lemma lstrip_eq s :
  lstrip s = match space_head s with
             | Some r => lstrip r
             | None => s
             end.
Proof.
  unfold space_head. destruct s as [|c [|d [|e r3]]]; cbn [lstrip].
  - reflexivity.
  - now destruct (Bs4.is_space c).
  - destruct (Bs4.is_space c); [reflexivity|]. now destruct (space2 c d).
  - destruct (Bs4.is_space c); [reflexivity|].
    destruct (space2 c d); [reflexivity|]. now destruct (space3 c d e).
Qed.

Lemma by_length (P : string -> Prop) :
  (forall s, (forall r, String.length r < String.length s -> P r) -> P s) ->
  forall s, P s.
Proof.
  intros H s. remember (String.length s) as n eqn:E. revert s E.
  induction n as [n IH] using lt_wf_ind. intros s ->.
  apply H. intros r Hr. now apply (IH (String.length r)).
Qed.

Lemma lstrip_suffix s : exists pre, s = pre ++ lstrip s.
Proof.
  induction s as [s IH] using by_length. rewrite lstrip_eq.
  destruct (space_head s) as [r|] eqn:E; [|now exists ""].
  destruct (space_head_split s r E) as [w ->].
  destruct (IH r (space_head_shorter _ _ E)) as [pre Hpre].
  exists (w ++ pre). rewrite append_assoc. now rewrite <- Hpre.
Qed.

Lemma lstrip_first s : first_is_space (lstrip s) = false.
Proof.
  induction s as [s IH] using by_length. rewrite lstrip_eq.
  destruct (space_head s) as [r|] eqn:E.
  - apply IH. eapply space_head_shorter; eauto.
  - unfold first_is_space. now rewrite E.
Qed.

Lemma lstrip_id s : first_is_space s = false -> lstrip s = s.
Proof.
  unfold first_is_space. rewrite lstrip_eq.
  now destruct (space_head s).
Qed.

Lemma lstrip_append s t : lstrip s = "" -> lstrip (s ++ t) = lstrip t.
Proof.
  induction s as [s IH] using by_length. rewrite (lstrip_eq s).
  destruct (space_head s) as [r|] eqn:E.
  - intros Hr. rewrite lstrip_eq, (space_head_append s r t E).
    apply IH; [eapply space_head_shorter; eauto | assumption].
  - now intros ->.
Qed.

Lemma lstrip_all p s : all_chars p s = true -> all_chars p (lstrip s) = true.
Proof.
  destruct (lstrip_suffix s) as [pre H]. rewrite H at 1.
  rewrite KeyFacts.all_chars_append. intros E.
  now apply andb_prop in E as [_ E].
Qed.

(** [rstrip] takes a text of white space off the end. *)
Lemma rstrip_split s : exists t, s = rstrip s ++ t /\ lstrip t = "".
Proof.
  induction s as [|c s IH]; [now exists ""|].
  cbn [rstrip]. destruct (String.eqb_spec (lstrip (String c s)) "") as [E|E].
  - now exists (String c s).
  - destruct IH as (t & Hs & Ht). exists t. split; [|assumption].
    cbn [append]. now rewrite <- Hs.
Qed.

Lemma rstrip_all p s : all_chars p s = true -> all_chars p (rstrip s) = true.
Proof.
  destruct (rstrip_split s) as (t & H & _). rewrite H at 1.
  rewrite KeyFacts.all_chars_append. intros E.
  now apply andb_prop in E as [E _].
Qed.

Lemma rstrip_first s : first_is_space s = false -> first_is_space (rstrip s) = false.
Proof.
  destruct (rstrip_split s) as (t & H & _). unfold first_is_space.
  destruct (space_head (rstrip s)) as [r|] eqn:E; [|reflexivity].
  rewrite H at 1. now rewrite (space_head_append _ _ t E).
Qed.

Lemma rstrip_last s : last_is_space (rstrip s) = false.
Proof.
  induction s as [|c s IH]; [reflexivity|].
  cbn [rstrip]. destruct (String.eqb_spec (lstrip (String c s)) "") as [E|E];
    [reflexivity|].
  cbn [last_is_space]. rewrite IH.
  destruct (space_head (String c (rstrip s))) as [[|x r]|] eqn:Eh; try reflexivity.
  exfalso. apply E. destruct (rstrip_split s) as (t & Hs & Ht).
  rewrite Hs at 1. change (String c (rstrip s ++ t)) with (String c (rstrip s) ++ t).
  rewrite lstrip_eq, (space_head_append _ _ t Eh). exact Ht.
Qed.

Lemma last_is_space_suffix pre s :
  last_is_space s = true -> last_is_space (pre ++ s) = true.
Proof.
  intros H. induction pre as [|c pre IH]; [exact H|].
  cbn [append last_is_space]. rewrite IH.
  now destruct (space_head (String c (pre ++ s))) as [[|x r]|].
Qed.

Lemma all_space_last s : s <> "" -> lstrip s = "" -> last_is_space s = true.
Proof.
  induction s as [s IH] using by_length. intros Hne. rewrite lstrip_eq.
  destruct (space_head s) as [r|] eqn:E; [|contradiction].
  intros Hr. destruct r as [|x r].
  - destruct s as [|c s]; [contradiction|]. cbn [last_is_space]. now rewrite E.
  - destruct (space_head_split s _ E) as [w ->].
    apply last_is_space_suffix.
    apply IH; [eapply space_head_shorter; eauto | discriminate | assumption].
Qed.

Lemma rstrip_id s : last_is_space s = false -> rstrip s = s.
Proof.
  induction s as [|c s IH]; [reflexivity|]. intros H.
  cbn [rstrip]. destruct (String.eqb_spec (lstrip (String c s)) "") as [E|_].
  - rewrite all_space_last in H; [discriminate | discriminate | assumption].
  - f_equal. apply IH. cbn [last_is_space] in H.
    now destruct (space_head (String c s)) as [[|x r]|].
Qed.

(** The line feed at the end of a line does not count. *)
Lemma lstrip_line_feed s :
  lstrip s <> "" -> lstrip (s ++ String "010" "") = lstrip s ++ String "010" "".
Proof.
  induction s as [s IH] using by_length. rewrite (lstrip_eq s).
  destruct (space_head s) as [r|] eqn:E.
  - intros Hr. rewrite lstrip_eq, (space_head_append s r _ E).
    apply IH; [eapply space_head_shorter; eauto | assumption].
  - intros Hne. rewrite lstrip_eq.
    replace (space_head (s ++ String "010" "")) with (@None string); [reflexivity|].
    unfold space_head in *. destruct s as [|c [|d [|e r3]]]; cbn [append].
    + contradiction.
    + destruct (Bs4.is_space c); [discriminate|].
      unfold space2. change (byte 133 "010") with false.
      change (byte 160 "010") with false. now rewrite andb_false_r.
    + destruct (Bs4.is_space c); [discriminate|].
      destruct (space2 c d); [discriminate|].
      unfold space3. change (byte 128 "010") with false.
      change (byte 175 "010") with false. change (byte 159 "010") with false.
      change (between 128 138 "010") with false.
      change (between 168 169 "010") with false.
      now rewrite !andb_false_r.
    + destruct (Bs4.is_space c); [discriminate|].
      destruct (space2 c d); [discriminate|].
      now destruct (space3 c d e).
Qed.

Lemma rstrip_line_feed s : rstrip (s ++ String "010" "") = rstrip s.
Proof.
  induction s as [|c s IH]; [reflexivity|].
  cbn [append rstrip]. rewrite IH.
  change (String c (s ++ String "010" "")) with (String c s ++ String "010" "").
  destruct (String.eqb_spec (lstrip (String c s)) "") as [E|E].
  - now rewrite (lstrip_append _ _ E).
  - rewrite (lstrip_line_feed _ E).
    destruct (lstrip (String c s)); [contradiction|reflexivity].
Qed.

Lemma strip_line_feed s : strip (s ++ String "010" "") = strip s.
Proof.
  unfold strip. destruct (String.eqb_spec (lstrip s) "") as [E|E].
  - now rewrite (lstrip_append _ _ E), E.
  - rewrite (lstrip_line_feed _ E). apply rstrip_line_feed.
Qed.

Lemma clean_fixed k : clean_key k -> strip (comment_sub false k) = k.
Proof.
  intros (_ & Hh & Hf & Hl). unfold strip.
  now rewrite (comment_sub_id k Hh), (lstrip_id k Hf), (rstrip_id k Hl).
Qed.

(** What is left of a line, when something is left, is a clean key. *)
Lemma strip_clean line :
  strip (comment_sub false line) <> "" ->
  clean_key (strip (comment_sub false line)).
Proof.
  intros Hne. unfold clean_key, strip in *. repeat split.
  - assumption.
  - apply rstrip_all, lstrip_all, comment_sub_no_hash.
  - apply rstrip_first, lstrip_first.
  - apply rstrip_last.
Qed.

End LinesFacts.

(** X4.  The keys read from lines are not empty, hold no [#] and have no
    white space at either end. *)
Theorem read_keys_clean (lines : list string) :
  Forall clean_key (read_keys_from_lines lines).
Proof.
  induction lines as [|line lines IH]; simpl; [constructor|].
  destruct (String.eqb_spec (strip (comment_sub false line)) "") as [E|Hne];
    simpl; [assumption|].
  constructor; [now apply LinesFacts.strip_clean | assumption].
Qed.

(** X5.  Reading is idempotent: the keys that were read, read again as
    lines, are the same keys. *)
Theorem read_keys_idempotent (lines : list string) :
  read_keys_from_lines (read_keys_from_lines lines) = read_keys_from_lines lines.
Proof.
  induction lines as [|line lines IH]; [reflexivity|].
  cbn [read_keys_from_lines].
  destruct (String.eqb_spec (strip (comment_sub false line)) "") as [E|Hne];
    cbn [negb]; [assumption|].
  cbn [read_keys_from_lines].
  rewrite (LinesFacts.clean_fixed _ (LinesFacts.strip_clean line Hne)).
  apply String.eqb_neq in Hne. rewrite Hne. cbn [negb]. now rewrite IH.
Qed.

(** X6.  A comment and the end of the line behind a key change nothing. *)
Theorem read_keys_comment (a c : string) (rest : list string) :
  Re.all_chars no_hash a = true ->
  Re.all_chars Re.dot c = true ->
  read_keys_from_lines ((a ++ "#" ++ c ++ String "010" "") :: rest)
  = read_keys_from_lines (a :: rest).
Proof.
  intros Ha Hc. cbn [read_keys_from_lines].
  rewrite (LinesFacts.comment_sub_comment a c "" Ha Hc).
  rewrite (LinesFacts.comment_sub_id a Ha). cbn [comment_sub].
  now rewrite LinesFacts.strip_line_feed.
Qed.

Lemma read_keys_comment_witness :
  read_keys_from_lines ["  yamada-taro  # the first author" ++ String "010" ""]
  = read_keys_from_lines ["  yamada-taro  "].
Proof.
  apply (read_keys_comment "  yamada-taro  " " the first author" []);
    vm_compute; reflexivity.
Defined.

(** ** Removing duplicates *)

Module DedupFacts.

Lemma mem_In k d : mem k d = true <-> In k d.
Proof.
  unfold mem. rewrite existsb_exists. split.
  - intros (x & Hx & E). apply String.eqb_eq in E. now subst.
  - intros H. exists k. split; [assumption | apply String.eqb_refl].
Qed.

Lemma filter_filter {A} (p q : A -> bool) l :
  filter p (filter q l) = filter (fun x => q x && p x) l.
Proof.
  induction l as [|x l IH]; simpl; [reflexivity|].
  destruct (q x); simpl; [destruct (p x)|]; now rewrite IH.
Qed.

Lemma fromkeys_step d k rest :
  fromkeys d (k :: rest) = fromkeys (if mem k d then d else (d ++ [k])%list) rest.
Proof. reflexivity. Qed.

(** The dict built from [d] is [d] followed by the keys that are new. *)
Lemma fromkeys_app lst : forall d,
  fromkeys d lst
  = (d ++ filter (fun k => negb (mem k d)) (remove_duplicates lst))%list.
Proof.
  unfold remove_duplicates.
  induction lst as [|k rest IH]; intros d.
  - simpl. now rewrite app_nil_r.
  - rewrite !fromkeys_step. change (mem k []) with false. cbv iota.
    change ([] ++ [k])%list with [k].
    rewrite (IH [k]), (IH (if mem k d then d else (d ++ [k])%list)).
    generalize (fromkeys [] rest). intros R.
    cbn [app filter]. rewrite filter_filter.
    destruct (mem k d) eqn:Hk; cbn [negb].
    + f_equal. apply filter_ext. intros x.
      change (mem x [k]) with (String.eqb x k || false). rewrite orb_false_r.
      destruct (String.eqb_spec x k) as [->|Hne]; cbn [negb andb];
        [now rewrite Hk | reflexivity].
    + rewrite <- app_assoc. cbn [app]. f_equal. f_equal. apply filter_ext.
      intros x. unfold mem. rewrite existsb_app. cbn [existsb].
      rewrite !orb_false_r, negb_orb. apply andb_comm.
Qed.

Lemma remove_duplicates_cons k lst :
  remove_duplicates (k :: lst)
  = k :: filter (fun x => negb (String.eqb x k)) (remove_duplicates lst).
Proof.
  unfold remove_duplicates at 1. rewrite fromkeys_step.
  change (mem k []) with false. cbv iota. change ([] ++ [k])%list with [k].
  rewrite fromkeys_app. cbn [app]. f_equal. apply filter_ext.
  intros x. unfold mem. cbn [existsb]. now rewrite orb_false_r.
Qed.

Lemma remove_duplicates_nil : remove_duplicates [] = [].
Proof. reflexivity. Qed.

Lemma In_remove_duplicates lst x : In x (remove_duplicates lst) <-> In x lst.
Proof.
  induction lst as [|k lst IH]; [reflexivity|].
  rewrite remove_duplicates_cons. cbn [In]. rewrite filter_In, IH.
  destruct (String.eqb_spec x k) as [->|Hne]; cbn [negb].
  - split; auto.
  - split.
    + intros [E|[H _]]; auto.
    + intros [E|H]; [now left | right; auto].
Qed.

Lemma NoDup_filter {A} (p : A -> bool) l : NoDup l -> NoDup (filter p l).
Proof.
  induction 1 as [|x l Hx Hl IH]; simpl; [constructor|].
  destruct (p x); [|assumption]. constructor; [|assumption].
  rewrite filter_In. tauto.
Qed.

Lemma NoDup_remove_duplicates lst : NoDup (remove_duplicates lst).
Proof.
  induction lst as [|k lst IH]; [constructor|].
  rewrite remove_duplicates_cons. constructor.
  - rewrite filter_In. intros [_ H]. now rewrite String.eqb_refl in H.
  - now apply NoDup_filter.
Qed.

Lemma filter_all {A} (p : A -> bool) l :
  (forall x, In x l -> p x = true) -> filter p l = l.
Proof.
  induction l as [|x l IH]; intros H; simpl; [reflexivity|].
  rewrite (H x (or_introl eq_refl)). f_equal. apply IH.
  intros y Hy. apply H. now right.
Qed.

Lemma remove_duplicates_NoDup lst : NoDup lst -> remove_duplicates lst = lst.
Proof.
  induction 1 as [|k lst Hk Hl IH]; [reflexivity|].
  rewrite remove_duplicates_cons, IH. f_equal. apply filter_all.
  intros x Hx. apply negb_true_iff, String.eqb_neq. intros ->. contradiction.
Qed.

End DedupFacts.

(** X7.  The list without duplicates has every key of the list once, each
    at the place of its first occurrence: the head stays the head, and
    the rest is the rest without duplicates and without the head. *)
Theorem remove_duplicates_first_occurrences :
  (forall lst, NoDup (remove_duplicates lst))
  /\ (forall lst x, In x (remove_duplicates lst) <-> In x lst)
  /\ remove_duplicates [] = []
  /\ (forall k lst,
        remove_duplicates (k :: lst)
        = k :: filter (fun x => negb (String.eqb x k)) (remove_duplicates lst)).
Proof.
  split; [exact DedupFacts.NoDup_remove_duplicates|].
  split; [exact DedupFacts.In_remove_duplicates|].
  split; [reflexivity | exact DedupFacts.remove_duplicates_cons].
Qed.

(** X8.  A list without duplicates is left as it is; so removing duplicates
    twice is removing them once. *)
Theorem remove_duplicates_fixed :
  (forall lst, NoDup lst -> remove_duplicates lst = lst)
  /\ (forall lst,
        remove_duplicates (remove_duplicates lst) = remove_duplicates lst).
Proof.
  split; [exact DedupFacts.remove_duplicates_NoDup|].
  intros lst. apply DedupFacts.remove_duplicates_NoDup,
    DedupFacts.NoDup_remove_duplicates.
Qed.

Lemma remove_duplicates_fixed_witness :
  remove_duplicates ["b"; "a"; "c"] = ["b"; "a"; "c"].
Proof.
  apply (proj1 remove_duplicates_fixed).
  repeat constructor; simpl; intuition discriminate.
Defined.

(** ** The options *)

Module OptionsFacts.

Lemma filter_invalid_nil l :
  filter (fun key => negb (is_valid_key key)) l = [] -> filter is_valid_key l = l.
Proof.
  induction l as [|k l IH]; simpl; [reflexivity|].
  destruct (is_valid_key k); simpl; [|discriminate].
  intros H. now rewrite IH.
Qed.

(** The keys kept are the valid ones of the given keys, each once, in
    the order in which they were first given. *)
Lemma author_keys_eq readlines exists_ args logs a :
  parse_options readlines exists_ args = (logs, inl a) ->
  Args.author_keys a
  = filter is_valid_key (remove_duplicates (given_keys readlines args))
  /\ Args.http_wait a = Namespace.wait args
  /\ (1 <= Namespace.wait args)%Z
  /\ (Args.output_directory a = None \/ Args.output_file a = None).
Proof.
  unfold parse_options, given_keys.
  set (keys := remove_duplicates _).
  assert (Hk : keys = remove_duplicates
                        (match Namespace.f args with
                         | Some file =>
                             if String.eqb file "" then []
                             else read_keys_from_lines (readlines file)
                         | None => []
                         end ++ Namespace.key args)%list).
  { subst keys. f_equal. f_equal.
    destruct (Namespace.f args) as [file|]; [|reflexivity].
    simpl. now destruct (String.eqb file ""). }
  rewrite <- Hk. clear Hk.
  destruct (filter (fun key => negb (is_valid_key key)) keys) as [|k0 inv] eqn:Einv.
  - destruct (Namespace.directory args) as [dir|];
      [destruct (truthy (Some dir))|];
      destruct (Namespace.wait args <? 1)%Z eqn:Ew; try discriminate;
      intros H; inversion H; subst; cbn;
      rewrite (filter_invalid_nil keys Einv);
      apply Z.ltb_ge in Ew; auto.
  - destruct (Namespace.directory args) as [dir|];
      [destruct (truthy (Some dir))|];
      destruct (Namespace.wait args <? 1)%Z eqn:Ew; try discriminate;
      intros H; inversion H; subst; cbn;
      apply Z.ltb_ge in Ew; auto.
Qed.

End OptionsFacts.

(** X9.  When [parse_options] returns, the interval is at least one second,
    the keys are the valid ones among the given keys, each once and in
    the order in which they were first given (the file's before the
    command line's), and not both a directory and a file are set. *)
Theorem parse_options_returns (readlines : string -> list string)
    (exists_ : string -> bool) (args : Namespace.t)
    (logs : list log_record) (a : Args.t) :
  parse_options readlines exists_ args = (logs, inl a) ->
  Args.author_keys a
  = filter is_valid_key (remove_duplicates (given_keys readlines args))
  /\ NoDup (Args.author_keys a)
  /\ Forall (fun key => is_valid_key key = true) (Args.author_keys a)
  /\ (1 <= Args.http_wait a)%Z
  /\ (Args.output_directory a = None \/ Args.output_file a = None).
Proof.
  intros H.
  destruct (OptionsFacts.author_keys_eq _ _ _ _ _ H) as (Hk & Hw & Hge & Hout).
  split; [assumption|]. rewrite Hk, Hw. repeat split; try assumption.
  - apply DedupFacts.NoDup_filter, DedupFacts.NoDup_remove_duplicates.
  - apply Forall_forall. intros k Hin. now apply filter_In in Hin.
Qed.

Lemma parse_options_returns_witness :
  let args :=
    Namespace.mk None (Some "feed.rss") (Some "keys.txt") 5
      ["suzuki-hanako"; "a/b"; "yamada-taro"] in
  let readlines := fun _ : string =>
    ["# authors" ++ String "010" ""; "yamada-taro  # first" ++ String "010" ""] in
  exists logs a,
    parse_options readlines (fun _ => true) args = (logs, inl a)
    /\ Args.author_keys a = ["yamada-taro"; "suzuki-hanako"].
Proof.
  cbv zeta. eexists. eexists. split; [vm_compute; reflexivity|].
  match goal with
  | |- Args.author_keys ?a = _ =>
      refine (eq_trans (proj1 (parse_options_returns
                (fun _ : string =>
                   ["# authors" ++ String "010" "";
                    "yamada-taro  # first" ++ String "010" ""])
                (fun _ => true)
                (Namespace.mk None (Some "feed.rss") (Some "keys.txt") 5
                   ["suzuki-hanako"; "a/b"; "yamada-taro"])
                _ a _)) _)
  end; vm_compute; reflexivity.
Defined.

(** [parse_options] ends the run exactly when the interval is below one
    second, and then with status 1. *)
Lemma parse_options_halts (readlines : string -> list string)
    (exists_ : string -> bool) (args : Namespace.t) :
  (exists logs, parse_options readlines exists_ args = (logs, inr (SystemExit 1)))
  <-> (Namespace.wait args < 1)%Z.
Proof.
  unfold parse_options.
  destruct (filter _ _); destruct (Namespace.directory args) as [dir|];
    try destruct (truthy (Some dir));
    destruct (Z.ltb_spec (Namespace.wait args) 1) as [Hlt|Hge];
    (split; [intros [logs E]; try discriminate; assumption
            | intros L; try lia; eauto]).
Qed.

(** ** The address of a page *)

Module QuoteFacts.
Import Re.

Lemma quote_byte_chars c : all_chars quoted_char (quote_byte c) = true.
Proof. destruct c as [[] [] [] [] [] [] [] []]; vm_compute; reflexivity. Qed.

Lemma unquote_quote_byte c rest :
  unquote (quote_byte c ++ rest) = String c (unquote rest).
Proof. destruct c as [[] [] [] [] [] [] [] []]; reflexivity. Qed.

Lemma unquote_quote s : unquote (quote s) = s.
Proof.
  induction s as [|c s IH]; [reflexivity|].
  cbn [quote]. now rewrite unquote_quote_byte, IH.
Qed.

Lemma quote_chars s : all_chars quoted_char (quote s) = true.
Proof.
  induction s as [|c s IH]; [reflexivity|].
  cbn [quote]. now rewrite KeyFacts.all_chars_append, quote_byte_chars, IH.
Qed.

Lemma quote_safe s : all_chars always_safe s = true -> quote s = s.
Proof.
  induction s as [|c s IH]; [reflexivity|].
  simpl. intros H. apply andb_prop in H as [Hc Hs].
  unfold quote_byte. rewrite Hc, (IH Hs). reflexivity.
Qed.

Lemma quote_append a b : quote (a ++ b) = quote a ++ quote b.
Proof.
  induction a as [|c a IH]; [reflexivity|].
  cbn [append quote]. now rewrite IH, append_assoc.
Qed.

Lemma append_inj_l (a b c : string) : a ++ b = a ++ c -> b = c.
Proof.
  induction a as [|x a IH]; simpl; [auto|].
  intros H. inversion H. auto.
Qed.


End QuoteFacts.

(** X10.  Whatever the key, what follows the fixed part of the address is made
    of letters, digits, [_.-~] and [%]: no slash, question mark, hash
    sign, blank or line feed of the key reaches the address as such. *)
Theorem top_url_segment (key : string) :
  exists segment,
    top_url key = byline_url ++ segment
    /\ Re.all_chars quoted_char segment = true
    /\ Re.all_chars
         (fun c => negb (Re.one_of ["/"; "?"; "#"; " "; "010"]%char c))
         segment = true.
Proof.
  exists (quote key). split; [reflexivity|].
  split; [apply QuoteFacts.quote_chars|].
  eapply KeyFacts.all_chars_impl; [|apply QuoteFacts.quote_chars].
  intros c. destruct c as [[] [] [] [] [] [] [] []]; vm_compute; congruence.
Qed.

(** X11.  Two keys have one address only when they are one key. *)
Theorem top_url_injective (key key' : string) :
  top_url key = top_url key' -> key = key'.
Proof.
  intros H. apply QuoteFacts.append_inj_l in H.
  rewrite <- (QuoteFacts.unquote_quote key), <- (QuoteFacts.unquote_quote key').
  now rewrite H.
Qed.

Lemma top_url_injective_witness : "yamada-taro" = "yamada-taro".
Proof. apply top_url_injective. reflexivity. Defined.

(** X12.  The address of a valid key.  The key is a text of letters, digits
    and hyphens and the address is the fixed part followed by that text;
    or the key is such a text followed by a line feed, and the address
    is the fixed part, the text and [%0A] in place of the line feed. *)
Theorem top_url_valid_key (key : string) :
  is_valid_key key = true ->
  exists body,
    body <> ""
    /\ Re.all_chars key_char body = true
    /\ ((key = body /\ top_url key = byline_url ++ body)
        \/ (key = body ++ String "010" ""
            /\ top_url key = byline_url ++ body ++ "%0A")).
Proof.
  intros Hv. apply KeyFacts.valid_key_shape in Hv as (body & Hne & Hall & Hkey).
  assert (Hq : quote body = body).
  { apply QuoteFacts.quote_safe.
    eapply KeyFacts.all_chars_impl; [|exact Hall]. apply KeyFacts.key_char_safe. }
  assert (Hq' : quote (body ++ String "010" "") = body ++ "%0A").
  { now rewrite QuoteFacts.quote_append, Hq. }
  exists body. split; [assumption|]. split; [assumption|]. unfold top_url.
  destruct Hkey as [->| ->]; [left; now rewrite Hq | right; now rewrite Hq'].
Qed.

Lemma top_url_valid_key_witness :
  exists body,
    body <> ""
    /\ Re.all_chars key_char body = true
    /\ (("yamada-taro" ++ String "010" "" = body
         /\ top_url ("yamada-taro" ++ String "010" "") = byline_url ++ body)
        \/ ("yamada-taro" ++ String "010" "" = body ++ String "010" ""
            /\ top_url ("yamada-taro" ++ String "010" "")
               = byline_url ++ body ++ "%0A")).
Proof.
  exact (top_url_valid_key ("yamada-taro" ++ String "010" "") eq_refl).
Defined.

(** ** Rendering what was validated *)

Lemma make_rss_validated (world : Type)
    (refuses : Feedgenerator.Rss201rev2Feed -> option exn)
    (document : world -> Feedgenerator.Rss201rev2Feed -> string -> string)
    (w : world) (data : FeedData) :
  fst (validate_feeddata data) = true ->
  make_rss world refuses document w data
  = writeString world refuses document w (rss_feed (author_of data) data) "utf-8".
Proof.
  intros H. destruct (validated_has_author data H) as (a & Ha & Hne).
  unfold make_rss, author_of. rewrite Ha. cbn [truthy].
  destruct (String.eqb_spec a "") as [->|_]; [contradiction|reflexivity].
Qed.

(** X13.  A feed that passed the validation gets past the check of
    [make_rss]: it has the author that rendering asks for, so the
    [ValueError] of [make_rss] does not arise and the feed object built
    with that author goes to the library; rendering returns the
    document the library writes for it, or raises what the library
    raises when it refuses the object. *)
Theorem validated_renders (world : Type)
    (refuses : Feedgenerator.Rss201rev2Feed -> option exn)
    (document : world -> Feedgenerator.Rss201rev2Feed -> string -> string)
    (w : world) (data : FeedData) :
  fst (validate_feeddata data) = true ->
  exists author,
    FeedData.author data = Some author
    /\ author <> ""
    /\ make_rss world refuses document w data
       = match refuses (rss_feed author data) with
         | Some e => Raise e
         | None => Ok (document w (rss_feed author data) "utf-8")
         end.
Proof.
  intros H. destruct (validated_has_author data H) as (a & Ha & Hne).
  exists a. split; [assumption|]. split; [assumption|].
  unfold make_rss. rewrite Ha. cbn [truthy].
  destruct (String.eqb_spec a "") as [->|_]; [contradiction|reflexivity].
Qed.

Lemma validated_renders_witness :
  let data :=
    FeedData.mk (Some "Aの記事一覧") (Some "https://x/A")
      (Some (String "A" (String "001" ""))) None [] in
  exists author,
    FeedData.author data = Some author
    /\ author <> ""
    /\ make_rss unit refuses_control (fun _ f _ => Feedgenerator.title f) tt data
       = match refuses_control (rss_feed author data) with
         | Some e => Raise e
         | None => Ok (Feedgenerator.title (rss_feed author data))
         end.
Proof.
  cbv zeta.
  exact (validated_renders unit refuses_control
           (fun _ f _ => Feedgenerator.title f) tt
           (FeedData.mk (Some "Aの記事一覧") (Some "https://x/A")
              (Some (String "A" (String "001" ""))) None [])
           eq_refl).
Defined.

(** ** The run over the keys *)

Section MainFacts.
Variable world : Type.
Variable refuses : Feedgenerator.Rss201rev2Feed -> option exn.
Variable document : world -> Feedgenerator.Rss201rev2Feed -> string -> string.
Variable http_get : string -> fetched.
Variable soup_of : string -> element.
Variable clock : string -> datetime.
Variable world_of : string -> world.
Variable io : string -> event -> option exn.
Variable http_wait : Z.

Let page := page_of http_get soup_of clock.
Let feeds := collected http_get soup_of clock.
Let errors := failures http_get soup_of clock.






















End MainFacts.

(** ** The run as a whole *)

Section RunFacts.
Variable world : Type.
Variable refuses : Feedgenerator.Rss201rev2Feed -> option exn.
Variable document : world -> Feedgenerator.Rss201rev2Feed -> string -> string.
Variable http_get : string -> fetched.
Variable soup_of : string -> element.
Variable clock : string -> datetime.
Variable world_of : string -> world.
Variable io : string -> event -> option exn.
Variables w_finish w_finish' : world.

Let run :=
  main world refuses document http_get soup_of clock world_of io
    w_finish w_finish'.
Let page := page_of http_get soup_of clock.
Let feeds := collected http_get soup_of clock.
Let errors := failures http_get soup_of clock.
Let valid (d : FeedData) : Prop := fst (validate_feeddata d) = true.






(** The feeds collected are valid. *)
Lemma collected_valid keys : Forall valid (feeds keys).
Proof.
  unfold feeds, collected, valid. induction keys as [|key keys IH]; cbn [flat_map].
  - constructor.
  - apply Forall_app. split; [|assumption].
    unfold page_of. destruct (http_get (top_url key)) as [html|ex]; [|constructor].
    destruct (parse (clock key) (soup_of html)) as [data|e]; [|constructor].
    destruct (fst (validate_feeddata data)) eqn:Hv; repeat constructor. exact Hv.
Qed.

Lemma collected_length keys :
  List.length (feeds keys) + errors keys = List.length keys.
Proof.
  unfold feeds, collected, errors, failures, fails.
  induction keys as [|key keys IH]; [reflexivity|].
  cbn [flat_map filter]. rewrite length_app.
  destruct (page_of http_get soup_of clock key); cbn [List.length]; lia.
Qed.





Lemma insert_raises (x : Entry) l e :
  insert key key_lt x l = Raise e -> e = TypeError.
Proof.
  induction l as [|y l IH]; cbn [insert]; [discriminate|].
  destruct (key_lt (key x) (key y)) as [b|e'] eqn:Hlt; cbn [bind].
  - destruct b; [discriminate|].
    destruct (insert key key_lt x l); cbn [bind]; [discriminate|].
    intros [= <-]. now apply IH.
  - intros [= <-]. unfold key_lt in Hlt.
    destruct (negb (pubdate_eq _ _)).
    + unfold pubdate_lt in Hlt.
      destruct (fst (key x)), (fst (key y)); congruence.
    + destruct (negb (title_eq _ _)); [|discriminate].
      unfold title_lt in Hlt.
      destruct (snd (key x)), (snd (key y)); congruence.
Qed.

Lemma sort_into_raises (l acc : list Entry) e :
  sort_into key key_lt acc l = Raise e -> e = TypeError.
Proof.
  revert acc. induction l as [|x l IH]; intros acc; cbn [sort_into]; [discriminate|].
  destruct (insert key key_lt x acc) eqn:Hi; cbn [bind].
  - apply IH.
  - intros [= <-]. eapply insert_raises; eauto.
Qed.

Lemma sorted_raises (l : list Entry) r e :
  sorted key key_lt l r = Raise e -> e = TypeError.
Proof.
  unfold sorted. destruct r.
  - destruct (sort_into key key_lt [] (rev l)) eqn:Hs; cbn [bind]; [discriminate|].
    intros [= <-]. eapply sort_into_raises; eauto.
  - apply sort_into_raises.
Qed.

Lemma str_join_valid sep l :
  Forall valid l -> l <> [] ->
  exists a, str_join sep (map FeedData.author l) = Ok a /\ a <> "".
Proof.
  induction 1 as [|d l Hd Hl IH]; intros Hne; [contradiction|].
  destruct (validated_has_author d Hd) as (a & Ha & Hna).
  cbn [map str_join]. rewrite Ha.
  destruct l as [|d' l'].
  - exists a. split; [reflexivity | assumption].
  - destruct IH as (r & Hr & _); [discriminate|].
    cbn [map] in Hr |- *. rewrite Hr. cbn [bind].
    eexists. split; [reflexivity|].
    destruct a; [contradiction | discriminate].
Qed.

(** Merging valid feeds gives a feed with an author, unless sorting the
    entries raises. *)
Lemma merge_valid l :
  Forall valid l -> l <> [] ->
  (exists data,
     merge l = Ok data
     /\ make_rss world refuses document w_finish data
        = writeString world refuses document w_finish
            (rss_feed (author_of data) data) "utf-8"
     /\ make_rss world refuses document w_finish' data
        = writeString world refuses document w_finish'
            (rss_feed (author_of data) data) "utf-8")
  \/ (merge l = Raise TypeError
      /\ sorted key key_lt (flat_map FeedData.entries l) true = Raise TypeError).
Proof.
  intros Hl Hne. unfold merge.
  destruct (str_join_valid ", " l Hl Hne) as (a & -> & Ha). cbn [bind].
  destruct l as [|f l']; [contradiction|]. cbn [first_feed bind].
  destruct (sorted key key_lt (flat_map FeedData.entries (f :: l')) true)
    as [es|e] eqn:Hs; cbn [bind].
  - left. eexists. split; [reflexivity|].
    unfold make_rss, author_of. cbn [FeedData.author truthy].
    destruct (String.eqb_spec a "") as [->|_]; [contradiction|].
    split; reflexivity.
  - right. pose proof (sorted_raises _ _ _ Hs) as ->. split; reflexivity.
Qed.

(** X14.  What [finish] makes of feeds that passed the validation.  With no
    feed it raises [IndexError].  With one feed, or with several when
    sorting their entries returns, the feed (the merged feed) goes to
    the library under its author: the result is the document the
    library writes for it, or the exception with which the library
    refuses it.  With several feeds whose sorting raises, it raises the
    [TypeError] of the comparison.  The [ValueError] of [make_rss] and
    the [TypeError] of the join of the authors do not arise. *)
Theorem finish_validated (l : list FeedData) :
  Forall (fun d => fst (validate_feeddata d) = true) l ->
  match finish world refuses document w_finish w_finish' l with
  | Ok doc =>
      exists data,
        (l = [data] \/ (2 <= List.length l /\ merge l = Ok data))
        /\ refuses (rss_feed (author_of data) data) = None
        /\ doc = document w_finish (rss_feed (author_of data) data) "utf-8"
  | Raise e =>
      (l = [] /\ e = IndexError)
      \/ (2 <= List.length l /\ e = TypeError
          /\ sorted key key_lt (flat_map FeedData.entries l) true
             = Raise TypeError)
      \/ (exists data,
            (l = [data] \/ (2 <= List.length l /\ merge l = Ok data))
            /\ refuses (rss_feed (author_of data) data) = Some e)
  end.
Proof.
  intros Hl. destruct l as [|f [|g l]].
  - left. split; reflexivity.
  - inversion Hl as [|? ? Hf _]; subst. cbn [finish].
    rewrite (make_rss_validated world refuses document w_finish f Hf).
    unfold writeString.
    destruct (refuses (rss_feed (author_of f) f)) as [e|] eqn:Er.
    + right. right. exists f. split; [now left | assumption].
    + exists f. split; [now left|]. split; [assumption | reflexivity].
  - assert (Hlen : 2 <= List.length (f :: g :: l)) by (cbn; lia).
    cbn [finish].
    destruct (merge_valid (f :: g :: l) Hl) as [(data & Hm & H1 & H2)|[Hm Hs]];
      [discriminate| |].
    + rewrite Hm. cbn [bind]. rewrite H1, H2. unfold writeString.
      destruct (refuses (rss_feed (author_of data) data)) as [e|] eqn:Er;
        cbn [bind].
      * right. right. exists data. split; [right; now split | assumption].
      * exists data. split; [right; now split|].
        split; [assumption | reflexivity].
    + rewrite Hm. cbn [bind]. right. left. auto.
Qed.





End RunFacts.

Lemma finish_validated_witness :
  let a :=
    FeedData.mk (Some "Aの記事一覧") (Some "https://x/A")
      (Some (String "A" (String "001" ""))) None [] in
  let b := FeedData.mk (Some "Bの記事一覧") (Some "https://x/B") (Some "B") None [] in
  match finish unit refuses_control (fun _ f _ => Feedgenerator.title f) tt tt
          [a; b] with
  | Ok doc =>
      exists data,
        ([a; b] = [data] \/ (2 <= List.length [a; b] /\ merge [a; b] = Ok data))
        /\ refuses_control (rss_feed (author_of data) data) = None
        /\ doc = Feedgenerator.title (rss_feed (author_of data) data)
  | Raise e =>
      ([a; b] = [] /\ e = IndexError)
      \/ (2 <= List.length [a; b] /\ e = TypeError
          /\ sorted key key_lt (flat_map FeedData.entries [a; b]) true
             = Raise TypeError)
      \/ (exists data,
            ([a; b] = [data]
             \/ (2 <= List.length [a; b] /\ merge [a; b] = Ok data))
            /\ refuses_control (rss_feed (author_of data) data) = Some e)
  end.
Proof.
  cbv zeta.
  refine (finish_validated unit refuses_control
            (fun _ f _ => Feedgenerator.title f) tt tt
            [FeedData.mk (Some "Aの記事一覧") (Some "https://x/A")
               (Some (String "A" (String "001" ""))) None [];
             FeedData.mk (Some "Bの記事一覧") (Some "https://x/B") (Some "B") None []]
            _).
  repeat constructor.
Defined.



(** ** The package's [get_rss] *)

(** X19.  Whenever the command accepts the page of a key, [get_rss] of the key
    takes the same feed to the library under the same author: it
    returns the document the library writes for the feed object, the
    one the directory mode writes to the file of the key, or raises
    what the library raises when it refuses the object.  The
    [ValueError] of [make_rss] does not arise. *)
Theorem get_rss_accepted (world : Type)
    (refuses : Feedgenerator.Rss201rev2Feed -> option exn)
    (document : world -> Feedgenerator.Rss201rev2Feed -> string -> string)
    (http_get : string -> fetched) (soup_of : string -> element)
    (clock : string -> datetime) (world_of : string -> world)
    (key : string) (data : FeedData) :
  page_of http_get soup_of clock key = Some data ->
  exists author,
    FeedData.author data = Some author
    /\ author <> ""
    /\ get_rss world refuses document http_get soup_of clock world_of key
       = match refuses (rss_feed author data) with
         | Some e => Raised e
         | None =>
             Returned (document (world_of key) (rss_feed author data) "utf-8")
         end.
Proof.
  unfold page_of, get_rss, fetch.
  destruct (http_get (top_url key)) as [html|ex]; [|discriminate].
  destruct (parse (clock key) (soup_of html)) as [d|e]; [|discriminate].
  destruct (fst (validate_feeddata d)) eqn:Hv; [|discriminate].
  intros [= ->]. destruct (validated_has_author data Hv) as (a & Ha & Hne).
  exists a. split; [assumption|]. split; [assumption|].
  unfold make_rss, writeString. rewrite Ha. cbn [truthy].
  destruct (String.eqb_spec a "") as [->|_]; [contradiction|].
  cbn [negb]. now destruct (refuses (rss_feed a data)).
Qed.

Lemma get_rss_accepted_witness :
  let title := String "A" (String "001" "の記事一覧 - Yahoo!ニュース") in
  let author := String "A" (String "001" "") in
  let page :=
    Bs4.soup
      [Bs4.Tag "html" []
         [Bs4.Tag "head" []
            [Bs4.Tag "title" [] [Bs4.NavigableString title];
             Bs4.Tag "link" [("rel", "canonical"); ("href", "https://x/A")] []];
          Bs4.Tag "body" [] []]] in
  get_rss unit refuses_control (fun _ f _ => Feedgenerator.title f)
    (fun _ => Page "a") (fun _ => page)
    (fun _ => Datetime.mk 2026 11 3 12 0 TZ_TOKYO) (fun _ => tt) "a"
  = Raised UnserializableContentError.
Proof.
  cbv zeta.
  destruct (get_rss_accepted unit refuses_control
              (fun _ f _ => Feedgenerator.title f)
              (fun _ => Page "a")
              (fun _ =>
                 Bs4.soup
                   [Bs4.Tag "html" []
                      [Bs4.Tag "head" []
                         [Bs4.Tag "title" []
                            [Bs4.NavigableString
                               (String "A"
                                  (String "001" "の記事一覧 - Yahoo!ニュース"))];
                          Bs4.Tag "link"
                            [("rel", "canonical"); ("href", "https://x/A")] []];
                       Bs4.Tag "body" [] []]])
              (fun _ => Datetime.mk 2026 11 3 12 0 TZ_TOKYO) (fun _ => tt) "a"
              (FeedData.mk
                 (Some (String "A" (String "001" "の記事一覧 - Yahoo!ニュース")))
                 (Some "https://x/A") (Some (String "A" (String "001" "")))
                 None [])
              eq_refl) as (a & Ha & _ & H).
  injection Ha as <-. exact H.
Defined.

(** ** What rendering hands to the library *)

(** X20.  The feed object of [make_rss]: the channel takes its link and
    description from the feed data and its title and author from the
    author; there is one item per entry, in the order of the entries,
    each under the author of the feed. *)
Theorem rss_feed_contents (author : string) (feeddata : FeedData) :
  rss_feed author feeddata
  = Feedgenerator.mkFeed (channel_title author) (FeedData.url feeddata)
      (FeedData.description feeddata) "ja" author
      (map (fun entry =>
              Feedgenerator.mkItem (Entry.title entry) (Entry.url entry)
                (Entry.summary entry) author (Entry.pubdate entry))
           (FeedData.entries feeddata)).
Proof.
  unfold rss_feed.
  set (item := fun entry : Entry =>
                 Feedgenerator.mkItem (Entry.title entry) (Entry.url entry)
                   (Entry.summary entry) author (Entry.pubdate entry)).
  assert (H : forall es t l d lang a items,
    fold_left (fun feed entry => Feedgenerator.add_item feed (item entry)) es
      (Feedgenerator.mkFeed t l d lang a items)
    = Feedgenerator.mkFeed t l d lang a (items ++ map item es)%list).
  { induction es as [|e es IH]; intros t l d lang a items; cbn [fold_left map].
    - now rewrite app_nil_r.
    - unfold Feedgenerator.add_item at 2. cbn. rewrite IH.
      now rewrite <- app_assoc. }
  apply H.
Qed.

(** ** Dates of entries *)

(** X21.  A timestamp that [parse_pubdate] returns is a date of the calendar
    at a time of the day, in the time zone of Tokyo. *)
Theorem parse_pubdate_calendar (now : datetime) (s : string)
    (this_year : option Z) (dt : datetime) :
  parse_pubdate now s this_year = Ok (Some dt) ->
  (1 <= Datetime.year dt <= 9999
   /\ 1 <= Datetime.month dt <= 12
   /\ 1 <= Datetime.day dt
        <= Datetime.days_in_month (Datetime.year dt) (Datetime.month dt)
   /\ 0 <= Datetime.hour dt <= 23
   /\ 0 <= Datetime.minute dt <= 59)%Z
  /\ Datetime.tz dt = TZ_TOKYO.
Proof.
  unfold parse_pubdate.
  destruct (Re.search pubdate_regexp s) as [m|]; [|discriminate].
  destruct (safe_int (Re.group m 1)) as [y|]; [|discriminate]. cbn [bind].
  destruct (int (Re.group m 2)) as [mo|]; [|discriminate]. cbn [bind].
  destruct (int (Re.group m 3)) as [d|]; [|discriminate]. cbn [bind].
  destruct (int (Re.group m 4)) as [h|]; [|discriminate]. cbn [bind].
  destruct (int (Re.group m 5)) as [mi|]; [|discriminate]. cbn [bind].
  set (year := if not_int y then _ else _).
  unfold Datetime.new.
  destruct (Datetime.c_int year && Datetime.c_int mo && Datetime.c_int d
            && Datetime.c_int h && Datetime.c_int mi); [|discriminate].
  cbn [negb].
  destruct ((1 <=? year) && (year <=? 9999))%Z eqn:Hy; [|discriminate].
  destruct ((1 <=? mo) && (mo <=? 12))%Z eqn:Hmo; [|discriminate].
  destruct ((1 <=? d) && (d <=? Datetime.days_in_month year mo))%Z eqn:Hd;
    [|discriminate].
  destruct ((0 <=? h) && (h <=? 23))%Z eqn:Hh; [|discriminate].
  destruct ((0 <=? mi) && (mi <=? 59))%Z eqn:Hmi; [|discriminate].
  cbn [negb bind]. intros [= <-]. cbn.
  apply andb_prop in Hy as [? ?], Hmo as [? ?], Hd as [? ?], Hh as [? ?],
    Hmi as [? ?].
  repeat split; lia.
Qed.

Lemma parse_pubdate_calendar_witness :
  let dt := Datetime.mk 2020 9 2 8 32 TZ_TOKYO in
  (1 <= Datetime.year dt <= 9999
   /\ 1 <= Datetime.month dt <= 12
   /\ 1 <= Datetime.day dt
        <= Datetime.days_in_month (Datetime.year dt) (Datetime.month dt)
   /\ 0 <= Datetime.hour dt <= 23
   /\ 0 <= Datetime.minute dt <= 59)%Z
  /\ Datetime.tz dt = TZ_TOKYO.
Proof.
  cbv zeta.
  refine (parse_pubdate_calendar (Datetime.mk 2026 11 3 12 0 TZ_TOKYO)
            "9/2(Wed) 8:32" (Some 2020%Z) (Datetime.mk 2020 9 2 8 32 TZ_TOKYO) _).
  vm_compute. reflexivity.
Defined.

(** X22.  A year written as 0000 counts as no year: the timestamp is in the
    reference year, or in the year of the clock when there is no
    reference year. *)
Theorem parse_pubdate_year_zero (now : datetime) (s : string)
    (this_year : option Z) (m : Re.groups) (dt : datetime) :
  Re.search pubdate_regexp s = Some m ->
  Re.group m 1 = Some "0000" ->
  parse_pubdate now s this_year = Ok (Some dt) ->
  Datetime.year dt
  = match this_year with
    | Some y => y
    | None => Datetime.year now
    end.
Proof.
  intros Hm Hy. unfold parse_pubdate. rewrite Hm, Hy.
  change (safe_int (Some "0000")) with (Ok (Some 0%Z) : result (option Z)).
  cbn [bind not_int Z.eqb].
  destruct (int (Re.group m 2)) as [mo|]; [|discriminate]. cbn [bind].
  destruct (int (Re.group m 3)) as [d|]; [|discriminate]. cbn [bind].
  destruct (int (Re.group m 4)) as [h|]; [|discriminate]. cbn [bind].
  destruct (int (Re.group m 5)) as [mi|]; [|discriminate]. cbn [bind].
  set (year := match this_year with Some y => y | None => Datetime.year now end).
  unfold Datetime.new.
  repeat match goal with
    | |- context [if ?b then _ else _] => destruct b
    end; try discriminate.
  cbn [bind]. now intros [= <-].
Qed.

Lemma parse_pubdate_year_zero_witness :
  Datetime.year (Datetime.mk 2020 9 2 8 32 TZ_TOKYO) = 2020%Z.
Proof.
  refine (parse_pubdate_year_zero (Datetime.mk 2026 11 3 12 0 TZ_TOKYO)
            "0000/9/2(Wed) 8:32" (Some 2020%Z) _
            (Datetime.mk 2020 9 2 8 32 TZ_TOKYO) _ _ _).
  - vm_compute. reflexivity.
  - vm_compute. reflexivity.
  - vm_compute. reflexivity.
Defined.

(** ** The author of a page *)

Lemma lang_str t : Re.lang (Re.str t) t.
Proof.
  induction t as [|c t IH]; cbn [Re.str Re.lang]; [reflexivity|].
  exists (String c ""), t. split; [reflexivity|]. split; [|assumption].
  unfold Re.lit. cbn [Re.lang]. exists c. split; [reflexivity|].
  apply Ascii.eqb_refl.
Qed.

(** X23.  The author of a page whose head title has the text [s]: the lookup
    does not raise; it gives an author exactly when [s] begins with a
    text that is not empty and has no line feed, followed by the fixed
    text, and the author it gives is such a beginning of [s]. *)
Theorem extract_author_shape (soup t : element) (s : string) :
  select1 soup sel_head_title = Some t ->
  Bs4.string_ t = Some s ->
  match extract_author soup with
  | Ok (Some a) =>
      exists rest,
        s = a ++ author_suffix ++ rest
        /\ a <> "" /\ Re.all_chars Re.dot a = true
  | Ok None =>
      ~ exists a rest,
          s = a ++ author_suffix ++ rest
          /\ a <> "" /\ Re.all_chars Re.dot a = true
  | Raise _ => False
  end.
Proof.
  intros Ht Hs. unfold extract_author. rewrite Ht, Hs. cbn [re_match bind].
  destruct (Re.rmatch author_regexp s) as [g|] eqn:E.
  - apply AuthorFacts.author_match in E as (a & rest & Hg & -> & Hne & Hall).
    rewrite Hg. cbn [truthy].
    destruct (String.eqb_spec a "") as [->|_]; [contradiction|].
    cbn [negb]. exists rest. auto.
  - intros (a & rest & -> & Hne & Hall).
    apply ReFacts.rmatch_None in E. apply E.
    exists (a ++ author_suffix), rest. split; [now rewrite append_assoc|].
    unfold author_regexp. cbn [Re.lang].
    exists a, author_suffix. split; [reflexivity|]. split; [now split|].
    apply lang_str.
Qed.

Lemma extract_author_shape_witness :
  let doc :=
    Bs4.soup
      [Bs4.Tag "html" []
         [Bs4.Tag "head" []
            [Bs4.Tag "title" [] [Bs4.NavigableString "Aの記事一覧 - Yahoo!ニュース"]];
          Bs4.Tag "body" [] []]] in
  match extract_author doc with
  | Ok (Some a) =>
      exists rest,
        "Aの記事一覧 - Yahoo!ニュース" = a ++ author_suffix ++ rest
        /\ a <> "" /\ Re.all_chars Re.dot a = true
  | Ok None =>
      ~ exists a rest,
          "Aの記事一覧 - Yahoo!ニュース" = a ++ author_suffix ++ rest
          /\ a <> "" /\ Re.all_chars Re.dot a = true
  | Raise _ => False
  end.
Proof.
  cbv zeta.
  refine (extract_author_shape
            (Bs4.soup
               [Bs4.Tag "html" []
                  [Bs4.Tag "head" []
                     [Bs4.Tag "title" []
                        [Bs4.NavigableString "Aの記事一覧 - Yahoo!ニュース"]];
                   Bs4.Tag "body" [] []]])
            _ "Aの記事一覧 - Yahoo!ニュース" _ _).
  - vm_compute. reflexivity.
  - vm_compute. reflexivity.
Defined.

(** ** The command from its options on *)

Section CommandFacts.
Variable world : Type.
Variable refuses : Feedgenerator.Rss201rev2Feed -> option exn.
Variable document : world -> Feedgenerator.Rss201rev2Feed -> string -> string.
Variable http_get : string -> fetched.
Variable soup_of : string -> element.
Variable clock : string -> datetime.
Variable world_of : string -> world.
Variable io : string -> event -> option exn.
Variables w_finish w_finish' : world.
Variable readlines : string -> list string.
Variable exists_ : string -> bool.












End CommandFacts.
